(** * Employees, managers, sales people and companies

    A shallow embedding of [main.py] and the properties of its four classes.

    Python objects have identity and are shared by reference: the entity that
    a [Company] lists is the very object a [Manager] keeps among its direct
    reports.  The embedding therefore keeps an explicit object store: every
    instance, and every Python [list] created by a constructor, lives at a
    location of a heap, and the methods are state transformers over the heap
    and the standard output.

    Numbers.  The identifier of an employee is a Python [int], modelled by
    [Z].  Salaries, raise amounts, commission rates and sales figures are
    what the docstrings declare them to be, Python [float]s: binary64
    numbers, modelled by the primitive type [float], on which [+], [*] and
    [>] are the IEEE 754 operations (round to nearest, ties to even; a
    comparison with NaN is false) and a literal such as [0.01] is the
    binary64 number nearest to it.  The [int] literals that the code mixes
    with these floats ([0] in [amount > 0], in [sales_achieved = 0] and in
    [total_salary = 0]) are the float zero, to which Python converts them in
    these operations.  A call that passes an [int] where a float is
    documented is modelled by the float of that value: the whole numbers of
    the example at the end of the source ([50000], [10000]) are such floats,
    and on them the operations give what Python gives on the [int]s as long
    as the results stay below 2^53.  The unbounded arithmetic of larger
    [int]s is outside the model. *)

From Stdlib Require Import PrimFloat SpecFloat FloatOps FloatAxioms.
From Stdlib Require Import ZArith QArith String.
From stdpp Require Import base option list gmap strings numbers.

Local Open Scope list_scope.

(** The float literals of the program are decimal, few of them exact in
    binary. *)
#[global] Set Warnings "-inexact-float".

(** ** Locations and objects *)

(** A location is the identity of an object ([id(o)] in Python). *)
Abbreviation loc := positive.

(** The attributes set by [Employee.__init__]. *)
Record fields : Type := Fields {
  employee_id : Z;      (* self.__employee_id, private *)
  name        : string; (* self.name *)
  salary      : float   (* self.salary *)
}.

(** The instances of the four classes, and the list objects they own.  The
    attribute [employees] of a manager or of a company holds a reference to a
    list object, not the list itself. *)
Inductive obj : Type :=
  | Employee (b : fields)
  | Manager (b : fields) (department : string) (employees : loc)
  | SalesPerson (b : fields) (commission_rate sales_achieved : float)
  | Company (cname : string) (employees : loc)
  | PyList (items : list loc).

(** ** Standard output *)

(** One piece of an f-string: literal text, [{x}] for a string or an
    integer, and [{x:.2f}] for a number. *)
Inductive frag : Type :=
  | Lit (s : string)
  | Int (z : Z)
  | Fix2 (q : float).

Abbreviation line := (list frag).

(** ** Program states, exceptions and the monad of methods *)

Record state : Type := State {
  heap   : gmap loc obj;
  stdout : list line
}.

(** [AttributeError]: the object lacks the attribute or method that is
    accessed.  [TypeError]: a call with an argument the method does not
    take.  [ValueError]: [list.remove(x)] when [x] is not in the list.
    [Dangling] has no counterpart in Python, where a reference
    always designates a live object; it makes the lookup of a location
    total. *)
Inductive exn : Type :=
  | AttributeError
  | TypeError
  | ValueError
  | Dangling.

(** A call either returns a value or raises; in both cases the mutations
    performed so far stay in the state. *)
Inductive result (A : Type) : Type :=
  | Ok (a : A) (σ : state)
  | Raised (e : exn) (σ : state).
Arguments Ok {A} a σ.
Arguments Raised {A} e σ.

Definition M (A : Type) : Type := state → result A.

#[global] Instance M_ret : MRet M := λ A a σ, Ok a σ.
#[global] Instance M_bind : MBind M := λ A B f m σ,
  match m σ with
  | Ok a σ' => f a σ'
  | Raised e σ' => Raised e σ'
  end.

Definition raise {A} (e : exn) : M A := λ σ, Raised e σ.

Definition final_state {A} (r : result A) : state :=
  match r with Ok _ σ => σ | Raised _ σ => σ end.

(** ** Primitive accesses *)

Definition deref (l : loc) : M obj := λ σ,
  match heap σ !! l with
  | Some o => Ok o σ
  | None => Raised Dangling σ
  end.

Definition store (l : loc) (o : obj) : M unit := λ σ,
  Ok () (State (<[l := o]> (heap σ)) (stdout σ)).

(** [print(...)] appends one line to the standard output. *)
Definition print (ln : line) : M unit := λ σ,
  Ok () (State (heap σ) (stdout σ ++ [ln])).

(** Object creation: the new object gets an identity no live object has. *)
Definition alloc (o : obj) : M loc := λ σ,
  let l := fresh (dom (heap σ)) in
  Ok l (State (<[l := o]> (heap σ)) (stdout σ)).

(** [isinstance(o, Employee)]. *)
Definition isinstance_Employee (o : obj) : bool :=
  match o with
  | Employee _ | Manager _ _ _ | SalesPerson _ _ _ => true
  | Company _ _ | PyList _ => false
  end.

(** The [Employee] part of an instance of [Employee] or of a subclass. *)
Definition base (o : obj) : option fields :=
  match o with
  | Employee b | Manager b _ _ | SalesPerson b _ _ => Some b
  | Company _ _ | PyList _ => None
  end.

Definition with_base (b : fields) (o : obj) : obj :=
  match o with
  | Employee _ => Employee b
  | Manager _ d es => Manager b d es
  | SalesPerson _ r s => SalesPerson b r s
  | Company _ _ | PyList _ => o
  end.

(** Reading the attributes of [Employee]. *)
Definition get_base (self : loc) : M fields :=
  o ← deref self;
  match base o with
  | Some b => mret b
  | None => raise AttributeError
  end.

(** [self.salary = v]. *)
Definition set_salary (self : loc) (v : float) : M unit :=
  o ← deref self;
  match base o with
  | Some b => store self (with_base (Fields (employee_id b) (name b) v) o)
  | None => raise AttributeError
  end.

(** [o.name], for an object of any of the four classes. *)
Definition get_name (l : loc) : M string :=
  o ← deref l;
  match o with
  | Employee b | Manager b _ _ | SalesPerson b _ _ => mret (name b)
  | Company n _ => mret n
  | PyList _ => raise AttributeError
  end.

(** [a > b]. *)
Definition gt (a b : float) : bool := (b <? a)%float.

(** ** class Employee *)

(** [Employee(employee_id, name, salary)]. *)
Definition new_Employee (i : Z) (n : string) (s : float) : M loc :=
  alloc (Employee (Fields i n s)).

Definition get_employee_id (self : loc) : M Z :=
  b ← get_base self;
  mret (employee_id b).

Definition Employee_display_details (self : loc) : M unit :=
  b ← get_base self;
  print [Lit "ID: "; Int (employee_id b); Lit ", Name: "; Lit (name b);
         Lit ", Salary: $"; Fix2 (salary b)].

Definition Employee_give_raise (self : loc) (amount : float) : M unit :=
  if gt amount 0 then
    b ← get_base self;
    set_salary self (salary b + amount)%float;;
    b' ← get_base self;
    print [Lit "Raise of $"; Fix2 amount; Lit " given to "; Lit (name b');
           Lit ". New salary: $"; Fix2 (salary b')]
  else
    n ← get_name self;
    print [Lit "Invalid raise amount for "; Lit n; Lit "."].

(** ** Python lists *)

Definition get_items (ll : loc) : M (list loc) :=
  o ← deref ll;
  match o with
  | PyList xs => mret xs
  | _ => raise AttributeError
  end.

(** [ll.append(x)]. *)
Definition list_append (ll x : loc) : M unit :=
  xs ← get_items ll;
  store ll (PyList (xs ++ [x])).

(** Objects of these classes define no [__eq__]: two of them are equal
    exactly when they are the same object. *)
Definition contains (x : loc) (xs : list loc) : bool :=
  bool_decide (x ∈ xs).
Arguments contains : simpl never.

(** [x in ll]. *)
Definition list_contains (ll x : loc) : M bool :=
  xs ← get_items ll;
  mret (contains x xs).

(** What [list.remove] leaves: the list without its first item equal to [x]. *)
Fixpoint remove_first (x : loc) (xs : list loc) : list loc :=
  match xs with
  | [] => []
  | y :: ys => if decide (y = x) then ys else y :: remove_first x ys
  end.

(** [ll.remove(x)]. *)
Definition list_remove (ll x : loc) : M unit :=
  xs ← get_items ll;
  if contains x xs then store ll (PyList (remove_first x xs))
  else raise ValueError.

(** [for x in xs: body(x)].  No loop body of this program changes the list
    it iterates over, so the loop runs over the items read at its start. *)
Fixpoint for_each (xs : list loc) (body : loc → M unit) : M unit :=
  match xs with
  | [] => mret ()
  | x :: xs' => body x;; for_each xs' body
  end.

(** [self.employees], an attribute of managers and of companies. *)
Definition get_employees (self : loc) : M loc :=
  o ← deref self;
  match o with
  | Manager _ _ ll | Company _ ll => mret ll
  | _ => raise AttributeError
  end.

(** ** class SalesPerson(Employee) *)

Definition new_SalesPerson (i : Z) (n : string) (s r : float) : M loc :=
  alloc (SalesPerson (Fields i n s) r 0%float).

Definition get_commission_rate (self : loc) : M float :=
  o ← deref self;
  match o with
  | SalesPerson _ r _ => mret r
  | _ => raise AttributeError
  end.

Definition get_sales_achieved (self : loc) : M float :=
  o ← deref self;
  match o with
  | SalesPerson _ _ s => mret s
  | _ => raise AttributeError
  end.

(** [self.commission_rate = v]. *)
Definition set_commission_rate (self : loc) (v : float) : M unit :=
  o ← deref self;
  match o with
  | SalesPerson b _ s => store self (SalesPerson b v s)
  | _ => raise AttributeError
  end.

Definition calculate_commission (self : loc) : M float :=
  r ← get_commission_rate self;
  s ← get_sales_achieved self;
  mret (r * s)%float.

Definition SalesPerson_display_details (self : loc) : M unit :=
  Employee_display_details self;;
  r ← get_commission_rate self;
  s ← get_sales_achieved self;
  print [Lit "Commission Rate: "; Fix2 r; Lit ", Sales Achieved: $"; Fix2 s].

Definition SalesPerson_give_raise (self : loc) (amount : float) : M unit :=
  Employee_give_raise self amount;;
  r ← get_commission_rate self;
  set_commission_rate self (r + 0.01)%float;;
  r' ← get_commission_rate self;
  print [Lit "Commission rate increased to: "; Fix2 r'].

(** ** class Manager(Employee) *)

Definition new_Manager (i : Z) (n : string) (s : float) (d : string) : M loc :=
  ll ← alloc (PyList []);
  alloc (Manager (Fields i n s) d ll).

Definition get_department (self : loc) : M string :=
  o ← deref self;
  match o with
  | Manager _ d _ => mret d
  | _ => raise AttributeError
  end.

Definition Manager_add_employee (self employee : loc) : M unit :=
  o ← deref employee;
  if isinstance_Employee o then
    ll ← get_employees self;
    list_append ll employee;;
    en ← get_name employee;
    sn ← get_name self;
    print [Lit en; Lit " added to "; Lit sn; Lit "'s direct reports."]
  else
    sn ← get_name self;
    print [Lit "Invalid employee object. Cannot add to "; Lit sn;
           Lit "'s reports."].

Definition Manager_remove_employee (self employee : loc) : M unit :=
  ll ← get_employees self;
  present ← list_contains ll employee;
  if (present : bool) then
    ll ← get_employees self;
    list_remove ll employee;;
    en ← get_name employee;
    sn ← get_name self;
    print [Lit en; Lit " removed from "; Lit sn; Lit "'s direct reports."]
  else
    en ← get_name employee;
    sn ← get_name self;
    print [Lit en; Lit " is not a direct report of "; Lit sn; Lit "."].

Definition Manager_display_details (self : loc) : M unit :=
  Employee_display_details self;;
  d ← get_department self;
  print [Lit "Department: "; Lit d];;
  ll ← get_employees self;
  xs ← get_items ll;
  match xs with
  | _ :: _ =>
      print [Lit "Direct Reports:"];;
      for_each xs (λ employee,
        n ← get_name employee;
        print [Lit "- "; Lit n])
  | [] => print [Lit "No direct reports."]
  end.

(** [Manager.give_raise], with the call [employee.give_raise(amount)] of its
    loop left open: that call is resolved on the class of each report, and
    the class may again be [Manager]. *)
Definition Manager_give_raise_with (call : loc → float → M unit)
    (self : loc) (amount : float) (include_reports : bool) : M unit :=
  Employee_give_raise self amount;;
  if include_reports then
    ll ← get_employees self;
    xs ← get_items ll;
    for_each xs (λ employee, call employee amount)
  else mret ().

(** [o.give_raise(amount)]: the method of the class of [o].  On a manager
    this is [Manager.give_raise] with [include_reports] at its default
    [False], which never reaches the loop. *)
Definition give_raise (self : loc) (amount : float) : M unit :=
  o ← deref self;
  match o with
  | Employee _ => Employee_give_raise self amount
  | Manager _ _ _ =>
      Manager_give_raise_with (λ _ _, mret ()) self amount false
  | SalesPerson _ _ _ => SalesPerson_give_raise self amount
  | Company _ _ | PyList _ => raise AttributeError
  end.

Definition Manager_give_raise : loc → float → bool → M unit :=
  Manager_give_raise_with give_raise.

(** [o.display_details()]: the method of the class of [o]. *)
Definition display_details (self : loc) : M unit :=
  o ← deref self;
  match o with
  | Employee _ => Employee_display_details self
  | Manager _ _ _ => Manager_display_details self
  | SalesPerson _ _ _ => SalesPerson_display_details self
  | Company _ _ | PyList _ => raise AttributeError
  end.

(** ** class Company *)

Definition new_Company (n : string) : M loc :=
  ll ← alloc (PyList []);
  alloc (Company n ll).

Definition Company_add_employee (self employee : loc) : M unit :=
  o ← deref employee;
  if isinstance_Employee o then
    ll ← get_employees self;
    list_append ll employee;;
    en ← get_name employee;
    sn ← get_name self;
    print [Lit en; Lit " added to "; Lit sn; Lit "."]
  else
    sn ← get_name self;
    print [Lit "Invalid employee object. Cannot add to "; Lit sn;
           Lit "'s employees."].

Definition Company_remove_employee (self employee : loc) : M unit :=
  ll ← get_employees self;
  present ← list_contains ll employee;
  if (present : bool) then
    ll ← get_employees self;
    list_remove ll employee;;
    en ← get_name employee;
    sn ← get_name self;
    print [Lit en; Lit " removed from "; Lit sn; Lit "."]
  else
    en ← get_name employee;
    sn ← get_name self;
    print [Lit en; Lit " is not an employee of "; Lit sn; Lit "."].

Definition Company_display_all_employees (self : loc) : M unit :=
  sn ← get_name self;
  print [Lit "--- All Employees of "; Lit sn; Lit " ---"];;
  ll ← get_employees self;
  xs ← get_items ll;
  for_each xs display_details;;
  print [Lit "------------------------"].

(** The loop of [get_employee_by_id]: it returns at the first match. *)
Fixpoint scan_by_id (i : Z) (xs : list loc) : M (option loc) :=
  match xs with
  | [] => mret None
  | employee :: xs' =>
      j ← get_employee_id employee;
      if (j =? i)%Z then mret (Some employee) else scan_by_id i xs'
  end.

Definition Company_get_employee_by_id (self : loc) (i : Z) : M (option loc) :=
  ll ← get_employees self;
  xs ← get_items ll;
  scan_by_id i xs.

(** The loop of [calculate_total_salary], [total_salary] being the
    accumulator. *)
Fixpoint add_salaries (total_salary : float) (xs : list loc) : M float :=
  match xs with
  | [] => mret total_salary
  | employee :: xs' =>
      b ← get_base employee;
      add_salaries (total_salary + salary b)%float xs'
  end.

Definition Company_calculate_total_salary (self : loc) : M float :=
  ll ← get_employees self;
  xs ← get_items ll;
  add_salaries 0%float xs.

(** ** Attribute assignment *)

(** [name], [salary], [department], [commission_rate] and [sales_achieved]
    are public attributes, which a caller may assign.  Assigning to an
    instance an attribute its class does not define adds an attribute that
    no method reads: it has no effect on the modelled state.  A list object
    accepts no attribute. *)
Definition set_name (self : loc) (n : string) : M unit :=
  o ← deref self;
  match o with
  | Employee b | Manager b _ _ | SalesPerson b _ _ =>
      store self (with_base (Fields (employee_id b) n (salary b)) o)
  | Company _ ll => store self (Company n ll)
  | PyList _ => raise AttributeError
  end.

Definition assign_salary (self : loc) (v : float) : M unit :=
  o ← deref self;
  match o with
  | Employee _ | Manager _ _ _ | SalesPerson _ _ _ => set_salary self v
  | Company _ _ => mret ()
  | PyList _ => raise AttributeError
  end.

Definition set_department (self : loc) (d : string) : M unit :=
  o ← deref self;
  match o with
  | Manager b _ ll => store self (Manager b d ll)
  | Employee _ | SalesPerson _ _ _ | Company _ _ => mret ()
  | PyList _ => raise AttributeError
  end.

Definition assign_commission_rate (self : loc) (v : float) : M unit :=
  o ← deref self;
  match o with
  | SalesPerson _ _ _ => set_commission_rate self v
  | Employee _ | Manager _ _ _ | Company _ _ => mret ()
  | PyList _ => raise AttributeError
  end.

Definition set_sales_achieved (self : loc) (v : float) : M unit :=
  o ← deref self;
  match o with
  | SalesPerson b r _ => store self (SalesPerson b r v)
  | Employee _ | Manager _ _ _ | Company _ _ => mret ()
  | PyList _ => raise AttributeError
  end.

(** ** The operations a caller has *)

(** A constructor call, a method call [o.method(...)] or an assignment
    [o.attribute = v]. *)
Inductive call : Type :=
  | MakeEmployee (i : Z) (n : string) (s : float)
  | MakeManager (i : Z) (n : string) (s : float) (d : string)
  | MakeSalesPerson (i : Z) (n : string) (s r : float)
  | MakeCompany (n : string)
  | GetEmployeeId (o : loc)
  | DisplayDetails (o : loc)
  | GiveRaise (o : loc) (amount : float)
  | GiveRaiseReports (o : loc) (amount : float) (include_reports : bool)
  | AddEmployee (o employee : loc)
  | RemoveEmployee (o employee : loc)
  | CalculateCommission (o : loc)
  | DisplayAllEmployees (o : loc)
  | GetEmployeeById (o : loc) (i : Z)
  | CalculateTotalSalary (o : loc)
  | SetName (o : loc) (n : string)
  | SetSalary (o : loc) (v : float)
  | SetDepartment (o : loc) (d : string)
  | SetCommissionRate (o : loc) (v : float)
  | SetSalesAchieved (o : loc) (v : float).

(** A call whose result is dropped. *)
Definition void {A} (m : M A) : M unit := m;; mret ().

(** A method call is resolved on the class of the receiver. *)
Definition perform (c : call) : M unit :=
  match c with
  | MakeEmployee i n s => void (new_Employee i n s)
  | MakeManager i n s d => void (new_Manager i n s d)
  | MakeSalesPerson i n s r => void (new_SalesPerson i n s r)
  | MakeCompany n => void (new_Company n)
  | GetEmployeeId o => void (get_employee_id o)
  | DisplayDetails o => display_details o
  | GiveRaise o amount => give_raise o amount
  | GiveRaiseReports o amount include_reports =>
      r ← deref o;
      match r with
      | Manager _ _ _ => Manager_give_raise o amount include_reports
      | Employee _ | SalesPerson _ _ _ => raise TypeError
      | Company _ _ | PyList _ => raise AttributeError
      end
  | AddEmployee o employee =>
      r ← deref o;
      match r with
      | Manager _ _ _ => Manager_add_employee o employee
      | Company _ _ => Company_add_employee o employee
      | _ => raise AttributeError
      end
  | RemoveEmployee o employee =>
      r ← deref o;
      match r with
      | Manager _ _ _ => Manager_remove_employee o employee
      | Company _ _ => Company_remove_employee o employee
      | _ => raise AttributeError
      end
  | CalculateCommission o => void (calculate_commission o)
  | DisplayAllEmployees o =>
      r ← deref o;
      match r with
      | Company _ _ => Company_display_all_employees o
      | _ => raise AttributeError
      end
  | GetEmployeeById o i =>
      r ← deref o;
      match r with
      | Company _ _ => void (Company_get_employee_by_id o i)
      | _ => raise AttributeError
      end
  | CalculateTotalSalary o =>
      r ← deref o;
      match r with
      | Company _ _ => void (Company_calculate_total_salary o)
      | _ => raise AttributeError
      end
  | SetName o n => set_name o n
  | SetSalary o v => assign_salary o v
  | SetDepartment o d => set_department o d
  | SetCommissionRate o v => assign_commission_rate o v
  | SetSalesAchieved o v => set_sales_achieved o v
  end.

(** The state after a sequence of operations.  An operation that raises
    leaves the state it had reached, and the caller goes on from there. *)
Definition after (cs : list call) (σ : state) : state :=
  foldl (λ σ c, final_state (perform c σ)) σ cs.

(** The state a program starts in. *)
Definition initial : state := State ∅ [].
(** * Properties *)

(** ** Reading a state *)

(** The [Employee] attributes of the object at [l], when it has them. *)
Definition fields_at (σ : state) (l : loc) : option fields :=
  heap σ !! l ≫= base.

Definition id_at (σ : state) (l : loc) : option Z :=
  employee_id <$> fields_at σ l.

Definition salary_at (σ : state) (l : loc) : option float :=
  salary <$> fields_at σ l.

Definition commission_rate_at (σ : state) (l : loc) : option float :=
  match heap σ !! l with
  | Some (SalesPerson _ r _) => Some r
  | _ => None
  end.

Definition items_at (σ : state) (ll : loc) : option (list loc) :=
  match heap σ !! ll with
  | Some (PyList xs) => Some xs
  | _ => None
  end.

(** The list of direct reports of the manager at [m]. *)
Definition reports_at (σ : state) (m : loc) : option (list loc) :=
  match heap σ !! m with
  | Some (Manager _ _ ll) => items_at σ ll
  | _ => None
  end.

(** The list of employees of the company at [c]. *)
Definition staff_at (σ : state) (c : loc) : option (list loc) :=
  match heap σ !! c with
  | Some (Company _ ll) => items_at σ ll
  | _ => None
  end.

(** The two classes that keep a list of employees, with the attribute and
    the methods of each. *)
Inductive keeper : Type := AManager | ACompany.

Definition list_at (k : keeper) : state → loc → option (list loc) :=
  match k with AManager => reports_at | ACompany => staff_at end.

Definition add_employee (k : keeper) : loc → loc → M unit :=
  match k with
  | AManager => Manager_add_employee
  | ACompany => Company_add_employee
  end.

Definition remove_employee (k : keeper) : loc → loc → M unit :=
  match k with
  | AManager => Manager_remove_employee
  | ACompany => Company_remove_employee
  end.

(** The line that [remove_employee] prints when [employee] is not in the
    list of [self]. *)
Definition not_found (k : keeper) (employee self : string) : line :=
  match k with
  | AManager =>
      [Lit employee; Lit " is not a direct report of "; Lit self; Lit "."]
  | ACompany =>
      [Lit employee; Lit " is not an employee of "; Lit self; Lit "."]
  end.

(** The name that [get_name] reads in an object. *)
Definition keeper_name (o : obj) : string :=
  match o with
  | Employee b | Manager b _ _ | SalesPerson b _ _ => name b
  | Company n _ => n
  | PyList _ => ""
  end.

(** [l] designates an instance of [Employee] or of one of its subclasses. *)
Definition entity (σ : state) (l : loc) : Prop :=
  is_Some (fields_at σ l).

(** The number of times [x] occurs in [xs]. *)
Fixpoint occurrences (x : loc) (xs : list loc) : nat :=
  match xs with
  | [] => 0
  | y :: ys => (if decide (y = x) then 1 else 0) + occurrences x ys
  end.

(** ** Floating-point sums *)

(** [x] after [n] additions of [a], each of them rounded. *)
Definition added (n : nat) (a x : float) : float :=
  Nat.iter n (λ y, (y + a)%float) x.

(** The floating-point sum of a list of numbers, taken from [0] and from
    left to right, rounding after each addition. *)
Definition total (qs : list float) : float :=
  foldl (λ t q, (t + q)%float) 0%float qs.

(** The rational number that a finite float stands for; none for an infinity
    and for NaN. *)
Definition exact (x : float) : option Q :=
  match Prim2SF x with
  | S754_zero _ => Some 0%Q
  | S754_finite s m e =>
      Some ((if s then Qopp else id) (inject_Z (Z.pos m) * Qpower 2 e)%Q)
  | S754_infinity _ | S754_nan => None
  end.

(** The sum of two, and of a list of, such rational numbers, without any
    rounding. *)
Definition exact_plus (x y : option Q) : option Q :=
  a ← x; b ← y; Some (a + b)%Q.

Definition exact_total (qs : list float) : option Q :=
  foldr (λ q t, exact_plus (exact q) t) (Some 0%Q) qs.

(** Two floats have rational values and these are equal. *)
Definition same_number (x y : option Q) : Prop :=
  match x, y with
  | Some a, Some b => (a == b)%Q
  | _, _ => False
  end.

(** ** The effect of a raise on an object *)

(** What [Employee.give_raise] makes of the object it is called on. *)
Definition paid (amount : float) (o : obj) : obj :=
  match base o with
  | Some b =>
      if gt amount 0
      then with_base (Fields (employee_id b) (name b) (salary b + amount)%float) o
      else o
  | None => o
  end.

(** What [o.give_raise(amount)] makes of [o]. *)
Definition raised (amount : float) (o : obj) : obj :=
  match paid amount o with
  | SalesPerson b r s => SalesPerson b (r + 0.01)%float s
  | o' => o'
  end.

(** ** Well-formed states *)

(** What no operation changes in an object: its class, its identifier and
    the list object it owns. *)
Inductive skeleton : Type :=
  | SkEmployee (i : Z)
  | SkManager (i : Z) (ll : loc)
  | SkSalesPerson (i : Z)
  | SkCompany (ll : loc)
  | SkList.

Definition skel (o : obj) : skeleton :=
  match o with
  | Employee b => SkEmployee (employee_id b)
  | Manager b _ ll => SkManager (employee_id b) ll
  | SalesPerson b _ _ => SkSalesPerson (employee_id b)
  | Company _ ll => SkCompany ll
  | PyList _ => SkList
  end.

Definition skel_at (σ : state) (l : loc) : option skeleton :=
  skel <$> heap σ !! l.

(** The list object that the attribute [employees] refers to. *)
Definition owned_list (o : obj) : option loc :=
  match o with
  | Manager _ _ ll | Company _ ll => Some ll
  | _ => None
  end.

(** The states that constructors and methods build: the attribute
    [employees] of a manager or a company refers to a list object, list
    objects hold instances of [Employee], and no two objects share a list. *)
Record wf (σ : state) : Prop := Wf {
  wf_owned : ∀ l o ll,
    heap σ !! l = Some o → owned_list o = Some ll → is_Some (items_at σ ll);
  wf_items : ∀ ll xs,
    items_at σ ll = Some xs → Forall (entity σ) xs;
  wf_unshared : ∀ l1 l2 o1 o2 ll,
    heap σ !! l1 = Some o1 → heap σ !! l2 = Some o2 →
    owned_list o1 = Some ll → owned_list o2 = Some ll → l1 = l2
}.

(** The elementary changes of state: output; an attribute other than the
    identifier or the list; the items of a list; a new instance;
    a new manager or company together with its empty list. *)
Inductive mutation (σ σ' : state) : Prop :=
  | mutation_output :
      heap σ' = heap σ → mutation σ σ'
  | mutation_attribute (l : loc) (o o' : obj) :
      heap σ !! l = Some o → skel o' = skel o → skel o ≠ SkList →
      heap σ' = <[l := o']> (heap σ) → mutation σ σ'
  | mutation_items (ll : loc) (xs xs' : list loc) :
      items_at σ ll = Some xs →
      (∀ x, x ∈ xs' → x ∈ xs ∨ entity σ x) →
      heap σ' = <[ll := PyList xs']> (heap σ) → mutation σ σ'
  | mutation_new (l : loc) (o : obj) :
      heap σ !! l = None → isinstance_Employee o = true →
      owned_list o = None →
      heap σ' = <[l := o]> (heap σ) → mutation σ σ'
  | mutation_new_owner (l ll : loc) (o : obj) :
      heap σ !! ll = None → heap σ !! l = None → l ≠ ll →
      owned_list o = Some ll →
      heap σ' = <[l := o]> (<[ll := PyList []]> (heap σ)) → mutation σ σ'.

Definition evolves : relation state := rtc mutation.

(** A computation that only makes such changes, whether it returns or
    raises. *)
Definition orderly {A} (m : M A) : Prop :=
  ∀ σ, evolves σ (final_state (m σ)).

(** A computation that changes nothing. *)
Definition readonly {A} (m : M A) : Prop :=
  ∀ σ, final_state (m σ) = σ.

(** ** The scenario of the example *)

(** Charlie manages Alice and David, and gets a raise that includes his
    reports. *)
Definition scenario : M (loc * loc * loc) :=
  alice ← new_Employee 101 "Alice" 50000;
  charlie ← new_Manager 201 "Charlie" 80000 "Sales";
  david ← new_SalesPerson 301 "David" 40000 0.1;
  Manager_add_employee charlie alice;;
  Manager_add_employee charlie david;;
  Manager_give_raise charlie 10000 true;;
  mret (alice, charlie, david).

(** The first item of [es] whose identifier is [i]. *)
Fixpoint first_with_id (σ : state) (i : Z) (es : list loc) : option loc :=
  match es with
  | [] => None
  | e :: es' =>
      if decide (id_at σ e = Some i) then Some e else first_with_id σ i es'
  end.

(** ** Construction *)

(** [l] is the instance that a constructor called with the identifier [i]
    has just returned, [σ] being the state it returned in. *)
Definition constructed (i : Z) (l : loc) (σ : state) : Prop :=
  ∃ σ0 n s,
    new_Employee i n s σ0 = Ok l σ ∨
    (∃ d, new_Manager i n s d σ0 = Ok l σ) ∨
    (∃ r, new_SalesPerson i n s r σ0 = Ok l σ).

(** The identifier in a skeleton. *)
Definition skel_id (k : skeleton) : option Z :=
  match k with
  | SkEmployee i | SkManager i _ | SkSalesPerson i => Some i
  | SkCompany _ | SkList => None
  end.

(** ** The example at the end of the source *)

(** The objects that the example creates, in the order of their creation;
    the lists of the manager and of the company are the objects 3 and 6. *)
Definition employee1 : loc := 1%positive.
Definition employee2 : loc := 2%positive.
Definition manager1 : loc := 4%positive.
Definition salesperson1 : loc := 5%positive.
Definition my_company : loc := 7%positive.

(** The example up to the point where the entities are registered with the
    company and with the manager. *)
Definition example_setup : list call :=
  [ MakeEmployee 101 "Alice Smith" 50000;
    MakeEmployee 102 "Bob Johnson" 60000;
    MakeManager 201 "Charlie Brown" 80000 "Sales";
    MakeSalesPerson 301 "David Miller" 40000 0.1;
    MakeCompany "Acme Corp";
    AddEmployee my_company employee1;
    AddEmployee my_company employee2;
    AddEmployee my_company manager1;
    AddEmployee my_company salesperson1;
    AddEmployee manager1 employee1;
    AddEmployee manager1 salesperson1 ].

Definition office : state := after example_setup initial.

(** ** What the display methods print *)

(** The line of [Employee.display_details]. *)
Definition base_line (b : fields) : line :=
  [Lit "ID: "; Int (employee_id b); Lit ", Name: "; Lit (name b);
   Lit ", Salary: $"; Fix2 (salary b)].

(** The name of the object at [l]. *)
Definition name_at (σ : state) (l : loc) : string :=
  from_option keeper_name "" (heap σ !! l).

(** The lines of [o.display_details()], for the object at [l]. *)
Definition details (σ : state) (l : loc) : list line :=
  match heap σ !! l with
  | Some (Employee b) => [base_line b]
  | Some (Manager b d ll) =>
      base_line b :: [Lit "Department: "; Lit d] ::
      match items_at σ ll with
      | Some (x :: xs) =>
          [Lit "Direct Reports:"]
          :: map (λ e, [Lit "- "; Lit (name_at σ e)]) (x :: xs)
      | _ => [[Lit "No direct reports."]]
      end
  | Some (SalesPerson b r s) =>
      [base_line b;
       [Lit "Commission Rate: "; Fix2 r; Lit ", Sales Achieved: $"; Fix2 s]]
  | _ => []
  end.

(** The lines of [c.display_all_employees()], for a company named [n] with
    the employees [es]. *)
Definition all_details (σ : state) (n : string) (es : list loc) : list line :=
  [Lit "--- All Employees of "; Lit n; Lit " ---"]
  :: concat (map (details σ) es)
  ++ [[Lit "------------------------"]].

(** A computation that leaves the heap as it is, whether it returns or
    raises. *)
Definition heap_stable {A} (m : M A) : Prop :=
  ∀ σ, heap (final_state (m σ)) = heap σ.

(** ** What the methods do to an object *)

(** The elementary changes that constructors and methods make, as opposed to
    assignments: output; a salary raised by a positive amount; a commission
    rate raised by 0.01; the items of a list; a new object. *)
Inductive method_step (σ σ' : state) : Prop :=
  | method_output :
      heap σ' = heap σ → method_step σ σ'
  | method_raise (l : loc) (o : obj) (b : fields) (a : float) :
      heap σ !! l = Some o → base o = Some b → gt a 0 = true →
      heap σ' =
        <[l := with_base (Fields (employee_id b) (name b) (salary b + a)%float) o]>
          (heap σ) →
      method_step σ σ'
  | method_rate (l : loc) (b : fields) (r s : float) :
      heap σ !! l = Some (SalesPerson b r s) →
      heap σ' = <[l := SalesPerson b (r + 0.01)%float s]> (heap σ) →
      method_step σ σ'
  | method_items (ll : loc) (xs xs' : list loc) :
      heap σ !! ll = Some (PyList xs) →
      heap σ' = <[ll := PyList xs']> (heap σ) → method_step σ σ'
  | method_new (l : loc) (o : obj) :
      heap σ !! l = None →
      heap σ' = <[l := o]> (heap σ) → method_step σ σ'.

(** A computation that only makes such changes. *)
Definition disciplined {A} (m : M A) : Prop :=
  ∀ σ, rtc method_step σ (final_state (m σ)).

(** [x] after the floating-point additions, one after the other, of the
    amounts [amounts]. *)
Definition all_added (amounts : list float) (x : float) : float :=
  foldl (λ y a, (y + a)%float) x amounts.

(** [b'] is [b] but for the salary, which is that of [b] after the additions
    of some amounts, each of them greater than 0. *)
Definition kept (b b' : fields) : Prop :=
  employee_id b' = employee_id b ∧ name b' = name b ∧
  ∃ amounts, Forall (λ a, gt a 0 = true) amounts ∧
             salary b' = all_added amounts (salary b).

(** [o'] is [o] but for a salary so raised, for a commission rate that is
    that of [o] after some additions of 0.01 and, for a list, for its
    items. *)
Definition grown (o o' : obj) : Prop :=
  match o, o' with
  | Employee b, Employee b' => kept b b'
  | Manager b d ll, Manager b' d' ll' => kept b b' ∧ d' = d ∧ ll' = ll
  | SalesPerson b r s, SalesPerson b' r' s' =>
      kept b b' ∧ (∃ n, r' = added n 0.01 r) ∧ s' = s
  | Company n ll, Company n' ll' => n' = n ∧ ll' = ll
  | PyList _, PyList _ => True
  | _, _ => False
  end.

(** The constructor calls and the method calls, which leave the assignments
    out. *)
Definition method_call (c : call) : Prop :=
  match c with
  | SetName _ _ | SetSalary _ _ | SetDepartment _ _
  | SetCommissionRate _ _ | SetSalesAchieved _ _ => False
  | _ => True
  end.

(** ** Calls that match their receiver *)

Definition is_Manager (σ : state) (l : loc) : Prop :=
  ∃ b d ll, heap σ !! l = Some (Manager b d ll).

Definition is_Company (σ : state) (l : loc) : Prop :=
  ∃ n ll, heap σ !! l = Some (Company n ll).

Definition is_SalesPerson (σ : state) (l : loc) : Prop :=
  ∃ b r s, heap σ !! l = Some (SalesPerson b r s).

(** An object with an attribute [name]: an instance of one of the four
    classes. *)
Definition named (σ : state) (l : loc) : Prop :=
  entity σ l ∨ is_Company σ l.

(** The receiver of the call is an instance of a class that defines the
    method, and the arguments are live objects; the argument of
    [remove_employee], whose name is printed, is a named one. *)
Definition applicable (σ : state) (c : call) : Prop :=
  match c with
  | MakeEmployee _ _ _ | MakeManager _ _ _ _ | MakeSalesPerson _ _ _ _
  | MakeCompany _ => True
  | GetEmployeeId o | DisplayDetails o | GiveRaise o _ => entity σ o
  | GiveRaiseReports o _ _ => is_Manager σ o
  | AddEmployee o e =>
      (is_Manager σ o ∨ is_Company σ o) ∧ is_Some (heap σ !! e)
  | RemoveEmployee o e => (is_Manager σ o ∨ is_Company σ o) ∧ named σ e
  | CalculateCommission o => is_SalesPerson σ o
  | DisplayAllEmployees o | GetEmployeeById o _ | CalculateTotalSalary o =>
      is_Company σ o
  | SetName o _ | SetSalary o _ | SetDepartment o _ | SetCommissionRate o _
  | SetSalesAchieved o _ => named σ o
  end.

(** ** The example at the end of the source, in full *)

(** A line feed, the ["\n"] that opens two of the printed strings. *)
Definition line_feed : string := String (Ascii.ascii_of_nat 10) EmptyString.

Definition main : M unit :=
  employee1 ← new_Employee 101 "Alice Smith" 50000;
  employee2 ← new_Employee 102 "Bob Johnson" 60000;
  manager1 ← new_Manager 201 "Charlie Brown" 80000 "Sales";
  salesperson1 ←
    new_SalesPerson 301 "David Miller" 40000 0.1;
  my_company ← new_Company "Acme Corp";
  Company_add_employee my_company employee1;;
  Company_add_employee my_company employee2;;
  Company_add_employee my_company manager1;;
  Company_add_employee my_company salesperson1;;
  Manager_add_employee manager1 employee1;;
  Manager_add_employee manager1 salesperson1;;
  Company_display_all_employees my_company;;
  employee_bob ← Company_get_employee_by_id my_company 102;
  match employee_bob with
  | Some bob =>
      print [Lit line_feed; Lit "Found employee by ID:"];;
      display_details bob
  | None => mret ()
  end;;
  total_salary ← Company_calculate_total_salary my_company;
  print [Lit line_feed; Lit "Total salary of all employees: $";
         Fix2 total_salary];;
  give_raise employee1 5000;;
  Manager_give_raise manager1 10000 true;;
  give_raise salesperson1 2000;;
  Company_display_all_employees my_company.

(** ** The lines that [add_employee] and [remove_employee] print *)

Definition invalid_line (k : keeper) (self : string) : line :=
  match k with
  | AManager =>
      [Lit "Invalid employee object. Cannot add to "; Lit self;
       Lit "'s reports."]
  | ACompany =>
      [Lit "Invalid employee object. Cannot add to "; Lit self;
       Lit "'s employees."]
  end.

Definition added_line (k : keeper) (employee self : string) : line :=
  match k with
  | AManager =>
      [Lit employee; Lit " added to "; Lit self; Lit "'s direct reports."]
  | ACompany => [Lit employee; Lit " added to "; Lit self; Lit "."]
  end.

Definition removed_line (k : keeper) (employee self : string) : line :=
  match k with
  | AManager =>
      [Lit employee; Lit " removed from "; Lit self;
       Lit "'s direct reports."]
  | ACompany => [Lit employee; Lit " removed from "; Lit self; Lit "."]
  end.

(** * Proofs *)

(** ** Floating-point numbers *)

(** The comparisons and the product are those of IEEE 754, as the
    specification of the primitive floats gives them. *)
Lemma le_not_gt (a : float) : (a <=? 0)%float = true → gt a 0 = false.
Proof.
  unfold gt. rewrite leb_spec, ltb_spec. unfold SFleb, SFltb.
  change (Prim2SF 0) with (S754_zero false).
  by destruct (Prim2SF a) as [[|]|[|]| |[|] m e].
Qed.

(** The product of a finite number and of 0 is a zero. *)
Lemma exact_mul_zero (r : float) :
  is_Some (exact r) → exact (r * 0)%float = Some 0%Q.
Proof.
  unfold exact. rewrite mul_spec.
  change (Prim2SF 0) with (S754_zero false).
  destruct (Prim2SF r) as [sr|sr| |sr m e]; simpl; try done;
    by intros [? ?].
Qed.

(** ** Running a method *)

Lemma run_bind {A B} (m : M A) (f : A → M B) (σ : state) :
  (m ≫= f) σ =
  match m σ with Ok a σ' => f a σ' | Raised e σ' => Raised e σ' end.
Proof. reflexivity. Qed.

Lemma final_state_bind {A B} (m : M A) (f : A → M B) (σ : state) :
  final_state ((m ≫= f) σ) =
  match m σ with
  | Ok a σ' => final_state (f a σ')
  | Raised _ σ' => σ'
  end.
Proof. rewrite run_bind. by destruct (m σ). Qed.

Ltac unfold_prims :=
  unfold get_employee_id, calculate_commission, get_commission_rate,
    get_sales_achieved, set_commission_rate, get_department, get_employees,
    list_append, list_contains, list_remove, get_items, get_name, set_salary,
    get_base, alloc, print, store, deref, raise, mbind, M_bind, mret, M_ret
    in *.

(** Symbolic execution: unfold the primitive accesses and resolve the heap
    lookups that the context determines. *)
Ltac exec :=
  unfold_prims; simpl;
  repeat (first
    [ match goal with
      | H : heap ?σ !! ?l = _ |- context [heap ?σ !! ?l] => rewrite H
      | H : ?h !! ?l = _ |- context [?h !! ?l] => rewrite H
      | H : base ?o = _ |- context [base ?o] => rewrite H
      end
    | rewrite lookup_insert_eq
    | rewrite lookup_insert_ne by congruence ]; simpl).

Lemma fields_at_Some (σ : state) (l : loc) (b : fields) :
  fields_at σ l = Some b ↔ ∃ o, heap σ !! l = Some o ∧ base o = Some b.
Proof.
  unfold fields_at. destruct (heap σ !! l) as [o|]; simpl.
  - split; [eauto|]. by intros (? & [= <-] & ?).
  - split; [done|]. by intros (? & ? & ?).
Qed.

Lemma base_isinstance (o : obj) :
  is_Some (base o) ↔ isinstance_Employee o = true.
Proof.
  destruct o; simpl; split; intros H; eauto; try discriminate;
    by destruct H.
Qed.

Lemma entity_alt (σ : state) (l : loc) :
  entity σ l ↔ ∃ o, heap σ !! l = Some o ∧ isinstance_Employee o = true.
Proof.
  unfold entity, is_Some. setoid_rewrite fields_at_Some. split.
  - intros (b & o & ? & ?). exists o. split; [done|].
    apply base_isinstance. eauto.
  - intros (o & ? & [b ?]%base_isinstance). eauto.
Qed.

Lemma base_with_base (b : fields) (o : obj) :
  is_Some (base o) → base (with_base b o) = Some b.
Proof. destruct o; simpl; intros [? ?]; congruence. Qed.

Lemma base_paid (amount : float) (o : obj) (b : fields) :
  base o = Some b →
  base (paid amount o) =
  Some (Fields (employee_id b) (name b)
          (if gt amount 0 then salary b + amount else salary b)%float).
Proof.
  intros Hb. unfold paid. rewrite Hb. destruct (gt amount 0).
  - apply base_with_base. eauto.
  - rewrite Hb. by destruct b.
Qed.

Lemma Employee_give_raise_run (σ : state) (self : loc) (o : obj) (b : fields)
    (amount : float) :
  heap σ !! self = Some o → base o = Some b →
  ∃ ln, Employee_give_raise self amount σ =
        Ok () (State (<[self := paid amount o]> (heap σ)) (stdout σ ++ [ln])).
Proof.
  intros Ho Hb. unfold Employee_give_raise, paid. rewrite Hb.
  destruct (gt amount 0).
  - exec. rewrite base_with_base by eauto. simpl. eauto.
  - rewrite (insert_id _ _ _ Ho). exec.
    destruct o; simplify_eq/=; destruct σ; eauto.
Qed.

Lemma SalesPerson_give_raise_run (σ : state) (self : loc) (b : fields)
    (r s amount : float) :
  heap σ !! self = Some (SalesPerson b r s) →
  ∃ lns, SalesPerson_give_raise self amount σ =
         Ok () (State (<[self := raised amount (SalesPerson b r s)]> (heap σ))
                      (stdout σ ++ lns)).
Proof.
  intros Ho.
  destruct (Employee_give_raise_run σ self _ b amount Ho eq_refl) as [ln Hrun].
  unfold SalesPerson_give_raise. rewrite run_bind, Hrun.
  unfold raised, paid. simpl. destruct (gt amount 0); simpl; exec.
  all: rewrite insert_insert_eq, <- app_assoc; eauto.
Qed.

(** The method that [o.give_raise(amount)] resolves to changes [o] alone. *)
Lemma give_raise_run (σ : state) (self : loc) (o : obj) (amount : float) :
  heap σ !! self = Some o → isinstance_Employee o = true →
  ∃ lns, give_raise self amount σ =
         Ok () (State (<[self := raised amount o]> (heap σ))
                      (stdout σ ++ lns)).
Proof.
  intros Ho Hi. unfold give_raise. rewrite run_bind. unfold deref at 1.
  rewrite Ho. destruct o as [b | b d ll | b r s | |]; try done.
  - destruct (Employee_give_raise_run σ self _ b amount Ho eq_refl)
      as [ln ->].
    exists [ln]. unfold raised, paid. simpl. by destruct (gt amount 0).
  - unfold Manager_give_raise_with. rewrite run_bind.
    destruct (Employee_give_raise_run σ self _ b amount Ho eq_refl)
      as [ln ->].
    exists [ln]. unfold raised, paid. simpl. by destruct (gt amount 0).
  - by apply SalesPerson_give_raise_run.
Qed.

(** On a manager, [o.give_raise(amount)] is [Manager.give_raise] with
    [include_reports] left at [False]. *)
Lemma give_raise_Manager (σ : state) (self : loc) (b : fields) (d : string)
    (ll : loc) (amount : float) :
  heap σ !! self = Some (Manager b d ll) →
  give_raise self amount σ = Manager_give_raise self amount false σ.
Proof.
  intros Ho. unfold give_raise. rewrite run_bind. unfold deref. by rewrite Ho.
Qed.

Lemma salary_rule (σ' : state) (self : loc) (b : fields) (amount : float) :
  fields_at σ' self =
    Some (Fields (employee_id b) (name b)
            (if gt amount 0 then salary b + amount else salary b)%float) →
  (gt amount 0 = true → salary_at σ' self = Some (salary b + amount)%float) ∧
  (gt amount 0 = false → salary_at σ' self = Some (salary b)).
Proof.
  intros Hσ'. unfold salary_at. rewrite Hσ'. simpl.
  split; intros Hgt; by rewrite Hgt.
Qed.

Lemma base_raised (amount : float) (o : obj) :
  base (raised amount o) = base (paid amount o).
Proof. unfold raised. by destruct (paid amount o). Qed.

(** ** [give_raise] and the salary *)

(** C1 (amended).  On every instance of [Employee], [Manager] or
    [SalesPerson], both the base method [Employee.give_raise] and the method
    the instance itself resolves [give_raise(amount)] to return normally,
    for every float [amount].  When [amount > 0] holds, the salary
    afterwards is the floating-point sum [salary + amount]: the sum rounded
    to the nearest binary64 number, which need not be the exact sum.  When
    [amount > 0] does not hold, and so when [amount <= 0], the salary is the
    old salary. *)
Theorem give_raise_salary (σ : state) (self : loc) (b : fields)
    (amount : float) (method : loc → float → M unit) :
  fields_at σ self = Some b →
  method = Employee_give_raise ∨ method = give_raise →
  ∃ σ', method self amount σ = Ok () σ' ∧
        (gt amount 0 = true →
         salary_at σ' self = Some (salary b + amount)%float) ∧
        (gt amount 0 = false → salary_at σ' self = Some (salary b)) ∧
        ((amount <=? 0)%float = true → salary_at σ' self = Some (salary b)).
Proof.
  intros (o & Ho & Hb)%fields_at_Some Hmethod.
  assert (∃ σ', method self amount σ = Ok () σ' ∧
            (gt amount 0 = true →
             salary_at σ' self = Some (salary b + amount)%float) ∧
            (gt amount 0 = false → salary_at σ' self = Some (salary b)))
    as (σ' & Hrun & Hpos & Hneg).
  { destruct Hmethod as [-> | ->].
    - destruct (Employee_give_raise_run σ self o b amount Ho Hb)
        as [ln Hrun].
      eexists. split; [exact Hrun|]. apply salary_rule.
      unfold fields_at. simpl. rewrite lookup_insert_eq. simpl.
      by apply base_paid.
    - destruct (give_raise_run σ self o amount Ho) as [lns Hrun].
      { apply base_isinstance. eauto. }
      eexists. split; [exact Hrun|]. apply salary_rule.
      unfold fields_at. simpl. rewrite lookup_insert_eq. simpl.
      rewrite base_raised. by apply base_paid. }
  exists σ'. split_and!; try done. intros Hle. by apply Hneg, le_not_gt.
Qed.

(** ** [SalesPerson.give_raise] and the commission rate *)

(** C3 (amended).  [SalesPerson.give_raise(amount)] returns normally for
    every float [amount]; afterwards the commission rate is the
    floating-point sum of the old rate and the literal [0.01], whether
    [amount > 0] holds or not; the salary follows the rule of the base
    method (the floating-point sum [salary + amount] when [amount > 0], the
    old salary otherwise); and nothing else has changed in the sales person
    or in any other object. *)
Theorem SalesPerson_give_raise_commission (σ : state) (self : loc)
    (b : fields) (r s amount : float) :
  heap σ !! self = Some (SalesPerson b r s) →
  ∃ σ' b', SalesPerson_give_raise self amount σ = Ok () σ' ∧
    heap σ' = <[self := SalesPerson b' (r + 0.01)%float s]> (heap σ) ∧
    commission_rate_at σ' self = Some (r + 0.01)%float ∧
    employee_id b' = employee_id b ∧ name b' = name b ∧
    (gt amount 0 = true → salary b' = (salary b + amount)%float) ∧
    (gt amount 0 = false → salary b' = salary b).
Proof.
  intros Ho.
  destruct (SalesPerson_give_raise_run σ self b r s amount Ho) as [lns Hrun].
  unfold raised, paid in Hrun. simpl in Hrun.
  unfold commission_rate_at.
  destruct (gt amount 0) eqn:Hgt; simpl in Hrun;
    eexists _, _; (split; [exact Hrun|]); simpl; rewrite lookup_insert_eq;
    by split_and!.
Qed.

(** ** Lists of employees *)

Lemma remove_first_absent (x : loc) (xs : list loc) :
  x ∉ xs → remove_first x xs = xs.
Proof.
  induction xs as [|y ys IH]; [done|]. intros Hx. simpl.
  rewrite decide_False by (intros ->; apply Hx; left).
  f_equal. apply IH. intros ?. apply Hx. by right.
Qed.

Lemma remove_first_middle (x : loc) (pre post : list loc) :
  x ∉ pre → remove_first x (pre ++ x :: post) = pre ++ post.
Proof.
  induction pre as [|y ys IH]; intros Hx; simpl.
  - by rewrite decide_True.
  - rewrite decide_False by (intros ->; apply Hx; left).
    f_equal. apply IH. intros ?. apply Hx. by right.
Qed.

Lemma occurrences_app (x : loc) (xs ys : list loc) :
  occurrences x (xs ++ ys) = occurrences x xs + occurrences x ys.
Proof. induction xs as [|y xs IH]; simpl; [done|]. rewrite IH. lia. Qed.

Lemma occurrences_snoc (x : loc) (xs : list loc) :
  occurrences x (xs ++ [x]) = S (occurrences x xs).
Proof. rewrite occurrences_app. simpl. rewrite decide_True by done. lia. Qed.

Lemma occurrences_zero (x : loc) (xs : list loc) :
  occurrences x xs = 0 ↔ x ∉ xs.
Proof.
  induction xs as [|y ys IH]; simpl.
  - split; [|done]. intros _. apply not_elem_of_nil.
  - rewrite not_elem_of_cons, <- IH. destruct (decide (y = x)); simpl.
    + split; [lia|]. intros [? _]. congruence.
    + split; [intros; split; [congruence|lia]|]. by intros [_ ?].
Qed.

Lemma occurrences_pos (x : loc) (xs : list loc) :
  x ∈ xs → 1 ≤ occurrences x xs.
Proof.
  intros Hx. destruct (occurrences x xs) eqn:Hn; [|lia].
  by apply occurrences_zero in Hn.
Qed.

Lemma list_at_Some (k : keeper) (σ : state) (self : loc) (xs : list loc) :
  list_at k σ self = Some xs ↔
  ∃ o ll, heap σ !! self = Some o ∧ owned_list o = Some ll ∧
          heap σ !! ll = Some (PyList xs) ∧
          match k with
          | AManager => ∃ b d, o = Manager b d ll
          | ACompany => ∃ n, o = Company n ll
          end.
Proof.
  destruct k; simpl; unfold reports_at, staff_at, items_at; split.
  - destruct (heap σ !! self) as [[]|] eqn:Ho; try done.
    destruct (heap σ !! employees) as [[]|] eqn:Hl; try done.
    intros [= ->]. eexists _, _. eauto 10.
  - intros (o & ll & Ho & _ & Hll & (b & d & ->)). by rewrite Ho, Hll.
  - destruct (heap σ !! self) as [[]|] eqn:Ho; try done.
    destruct (heap σ !! employees) as [[]|] eqn:Hl; try done.
    intros [= ->]. eexists _, _. eauto 10.
  - intros (o & ll & Ho & _ & Hll & (n & ->)). by rewrite Ho, Hll.
Qed.

Lemma add_employee_run (k : keeper) (σ : state) (self e : loc)
    (xs : list loc) :
  list_at k σ self = Some xs → entity σ e →
  ∃ o ll ln, heap σ !! self = Some o ∧ owned_list o = Some ll ∧
    heap σ !! ll = Some (PyList xs) ∧
    add_employee k self e σ =
    Ok () (State (<[ll := PyList (xs ++ [e])]> (heap σ)) (stdout σ ++ [ln])).
Proof.
  intros (o & ll & Ho & Hown & Hll & Hk)%list_at_Some
         (oe & He & Hi)%entity_alt.
  assert (ll ≠ e) by (intros ->; rewrite Hll in He; by simplify_eq).
  assert (ll ≠ self).
  { intros ->. destruct k; [destruct Hk as (? & ? & ->)|destruct Hk as (? & ->)];
      rewrite Hll in Ho; discriminate. }
  exists o, ll. destruct k.
  - destruct Hk as (b & d & ->). unfold add_employee, Manager_add_employee.
    destruct oe; try done; exec; eauto.
  - destruct Hk as (n & ->). unfold add_employee, Company_add_employee.
    destruct oe; try done; exec; eauto.
Qed.

Lemma remove_employee_run (k : keeper) (σ : state) (self e : loc)
    (xs : list loc) (be : fields) :
  list_at k σ self = Some xs → fields_at σ e = Some be →
  ∃ o ll ln, heap σ !! self = Some o ∧ owned_list o = Some ll ∧
    heap σ !! ll = Some (PyList xs) ∧
    remove_employee k self e σ =
    if contains e xs
    then Ok () (State (<[ll := PyList (remove_first e xs)]> (heap σ))
                      (stdout σ ++ [ln]))
    else Ok () (State (heap σ)
                      (stdout σ ++ [not_found k (name be) (keeper_name o)])).
Proof.
  intros (o & ll & Ho & Hown & Hll & Hk)%list_at_Some
         (oe & He & Hb)%fields_at_Some.
  assert (ll ≠ e) by (intros ->; rewrite Hll in He; by simplify_eq).
  assert (ll ≠ self).
  { intros ->. destruct k; [destruct Hk as (? & ? & ->)|destruct Hk as (? & ->)];
      rewrite Hll in Ho; discriminate. }
  exists o, ll. destruct k.
  - destruct Hk as (b & d & ->). unfold remove_employee, Manager_remove_employee.
    destruct (contains e xs) eqn:Hin;
      destruct oe; simplify_eq/=; exec; rewrite ?Hin; exec; rewrite ?Hin;
      exec; eauto;
      by exists [].
  - destruct Hk as (n & ->). unfold remove_employee, Company_remove_employee.
    destruct (contains e xs) eqn:Hin;
      destruct oe; simplify_eq/=; exec; rewrite ?Hin; exec; rewrite ?Hin;
      exec; eauto;
      by exists [].
Qed.

Lemma list_at_update (k : keeper) (σ : state) (self ll : loc)
    (xs xs' : list loc) (out : list line) (o : obj) :
  list_at k σ self = Some xs → heap σ !! ll = Some (PyList xs) →
  heap σ !! self = Some o → owned_list o = Some ll →
  list_at k (State (<[ll := PyList xs']> (heap σ)) out) self = Some xs'.
Proof.
  intros (o' & ll' & Ho & Hown & Hll & Hk)%list_at_Some Hll' Ho' Hown'.
  assert (o' = o) as -> by congruence.
  assert (ll' = ll) as -> by congruence.
  assert (ll ≠ self).
  { intros ->. destruct k; [destruct Hk as (? & ? & ->)|destruct Hk as (? & ->)];
      rewrite Hll in Ho; discriminate. }
  apply list_at_Some. exists o, ll. simpl.
  rewrite lookup_insert_eq, lookup_insert_ne by done. done.
Qed.

Lemma fields_at_list_update (σ : state) (ll l : loc) (xs xs' : list loc)
    (out : list line) :
  heap σ !! ll = Some (PyList xs) →
  fields_at (State (<[ll := PyList xs']> (heap σ)) out) l = fields_at σ l.
Proof.
  intros Hll. unfold fields_at. simpl.
  destruct (decide (ll = l)) as [->|Hne].
  - by rewrite lookup_insert_eq, Hll.
  - by rewrite lookup_insert_ne.
Qed.

Lemma contains_true (x : loc) (xs : list loc) : contains x xs = true ↔ x ∈ xs.
Proof. unfold contains. apply bool_decide_eq_true. Qed.

Lemma contains_false (x : loc) (xs : list loc) :
  contains x xs = false ↔ x ∉ xs.
Proof. unfold contains. apply bool_decide_eq_false. Qed.

(** ** Adding, then removing, a direct report *)

(** C4.  Let [e] be an instance of [Employee] that occurs exactly once in
    the reports of the manager [m] once it has been added.  Then
    [m.add_employee(e)] followed by [m.remove_employee(e)] returns normally
    and leaves the list of reports, and the whole heap, as they were before
    the addition. *)
Theorem Manager_add_then_remove (σ : state) (m e : loc) (xs : list loc) :
  reports_at σ m = Some xs → entity σ e →
  occurrences e (xs ++ [e]) = 1 →
  ∃ σ1 σ2,
    Manager_add_employee m e σ = Ok () σ1 ∧
    reports_at σ1 m = Some (xs ++ [e]) ∧
    Manager_remove_employee m e σ1 = Ok () σ2 ∧
    reports_at σ2 m = Some xs ∧
    heap σ2 = heap σ.
Proof.
  intros Hxs He Honce.
  assert (e ∉ xs) as Hnotin.
  { apply occurrences_zero. rewrite occurrences_snoc in Honce. lia. }
  destruct (add_employee_run AManager σ m e xs Hxs He)
    as (o & ll & ln & Ho & Hown & Hll & Hadd).
  simpl in Hadd. rewrite Hadd.
  set (σ1 := State (<[ll := PyList (xs ++ [e])]> (heap σ)) (stdout σ ++ [ln])).
  assert (reports_at σ1 m = Some (xs ++ [e])) as Hxs1.
  { by apply (list_at_update AManager σ m ll xs _ _ o). }
  destruct He as [be Hbe].
  assert (fields_at σ1 e = Some be) as Hbe1.
  { unfold σ1. by rewrite (fields_at_list_update σ ll e xs). }
  destruct (remove_employee_run AManager σ1 m e (xs ++ [e]) be Hxs1 Hbe1)
    as (o1 & ll1 & ln1 & Ho1 & Hown1 & Hll1 & Hremove).
  assert (ll ≠ m) by (intros ->; rewrite Hll in Ho; by destruct o).
  assert (o1 = o) as ->.
  { unfold σ1 in Ho1. simpl in Ho1. rewrite lookup_insert_ne in Ho1 by done.
    congruence. }
  assert (ll1 = ll) as -> by congruence.
  rewrite (proj2 (contains_true e (xs ++ [e]))) in Hremove
    by (apply elem_of_app; right; left).
  replace (remove_first e (xs ++ [e])) with xs in Hremove
    by (symmetry; rewrite <- (app_nil_r xs) at 2;
        by apply remove_first_middle).
  simpl in Hremove. rewrite insert_insert_eq in Hremove.
  rewrite (insert_id _ _ _ Hll) in Hremove.
  eexists σ1, _. split_and!; [done|done|exact Hremove| |done].
  unfold reports_at, items_at. simpl.
  unfold reports_at, items_at in Hxs. done.
Qed.

(** ** Removing an employee *)

(** C8.  For a manager and its reports as for a company and its employees,
    and for every instance [e] of [Employee]: [remove_employee(e)] returns
    normally and prints one line.  When [e] is not in the list, the heap is
    unchanged and the line says that [e] was not found.  When [e] is in the
    list, its first occurrence is removed and the other items keep their
    order. *)
Theorem remove_employee_outcome (k : keeper) (σ : state) (self e : loc)
    (xs : list loc) (be : fields) :
  list_at k σ self = Some xs → fields_at σ e = Some be →
  ∃ σ', remove_employee k self e σ = Ok () σ' ∧
    (∃ ln, stdout σ' = stdout σ ++ [ln]) ∧
    (e ∉ xs →
       heap σ' = heap σ ∧
       ∃ n, stdout σ' = stdout σ ++ [not_found k (name be) n]) ∧
    (∀ pre post, xs = pre ++ e :: post → e ∉ pre →
       list_at k σ' self = Some (pre ++ post)).
Proof.
  intros Hxs Hbe.
  destruct (remove_employee_run k σ self e xs be Hxs Hbe)
    as (o & ll & ln & Ho & Hown & Hll & Hrun).
  rewrite Hrun. destruct (contains e xs) eqn:Hin.
  - apply contains_true in Hin. eexists. split; [done|]. split_and!.
    + simpl. eauto.
    + done.
    + intros pre post -> Hpre. rewrite remove_first_middle by done.
      by apply (list_at_update k σ self ll (pre ++ e :: post) _ _ o).
  - apply contains_false in Hin. eexists. split; [done|]. split_and!.
    + simpl. eauto.
    + eauto.
    + intros pre post -> Hpre. exfalso. apply Hin, elem_of_app. right. left.
Qed.

(** ** The total of the salaries *)

Lemma get_base_run (σ : state) (l : loc) (b : fields) :
  fields_at σ l = Some b → get_base l σ = Ok b σ.
Proof. intros (o & Ho & Hb)%fields_at_Some. by exec. Qed.

Lemma salary_at_Some (σ : state) (l : loc) (s : float) :
  salary_at σ l = Some s ↔ ∃ b, fields_at σ l = Some b ∧ salary b = s.
Proof.
  unfold salary_at. destruct (fields_at σ l) as [b|]; simpl.
  - split; [intros [= <-]; eauto|]. by intros (? & [= <-] & <-).
  - split; [done|]. by intros (? & ? & ?).
Qed.

Lemma add_salaries_run (σ : state) (es : list loc) (ss : list float) :
  Forall2 (λ e s, salary_at σ e = Some s) es ss →
  ∀ acc, add_salaries acc es σ = Ok (foldl (λ t q, (t + q)%float) acc ss) σ.
Proof.
  induction 1 as [|e s es ss (b & Hb & <-)%salary_at_Some _ IH]; intros acc.
  - done.
  - simpl. by rewrite run_bind, (get_base_run _ _ _ Hb), IH.
Qed.

Lemma total_snoc (ss : list float) (s : float) :
  total (ss ++ [s]) = (total ss + s)%float.
Proof. unfold total. by rewrite foldl_app. Qed.

Lemma total_salary_run (σ : state) (c : loc) (es : list loc) (ss : list float) :
  staff_at σ c = Some es →
  Forall2 (λ e s, salary_at σ e = Some s) es ss →
  Company_calculate_total_salary c σ = Ok (total ss) σ.
Proof.
  intros (o & ll & Ho & _ & Hll & (n & ->))%(list_at_Some ACompany) Hss.
  unfold Company_calculate_total_salary. exec.
  by rewrite (add_salaries_run σ es ss Hss).
Qed.

(** C5 (amended).  Whatever the classes of the entities in the list of
    employees of a company, [calculate_total_salary()] returns normally,
    changes nothing, and returns the floating-point sum of their [salary]
    attributes taken from 0 in the order of the list, each addition rounded
    to the nearest binary64 number: the total of no employee is 0, and the
    total of a list with one more employee at its end is the floating-point
    sum of the total of the list and of the salary of that employee.  The
    result is a function of the salaries alone: no commission rate and no
    sales figure enters it. *)
Theorem calculate_total_salary_sum (σ : state) (c : loc) (es : list loc)
    (ss : list float) :
  staff_at σ c = Some es →
  Forall2 (λ e s, salary_at σ e = Some s) es ss →
  Company_calculate_total_salary c σ = Ok (total ss) σ ∧
  total [] = 0%float ∧
  ∀ ss' s, total (ss' ++ [s]) = (total ss' + s)%float.
Proof.
  intros Hes Hss. split_and!.
  - by apply (total_salary_run σ c es).
  - done.
  - apply total_snoc.
Qed.

(** ** Adding an employee a second time *)

Lemma salary_at_list_update (σ : state) (ll l : loc) (xs xs' : list loc)
    (out : list line) :
  heap σ !! ll = Some (PyList xs) →
  salary_at (State (<[ll := PyList xs']> (heap σ)) out) l = salary_at σ l.
Proof.
  intros Hll. unfold salary_at. by rewrite (fields_at_list_update σ ll l xs).
Qed.

Lemma entities_salaries (σ : state) (es : list loc) :
  Forall (entity σ) es →
  ∃ ss, Forall2 (λ e s, salary_at σ e = Some s) es ss.
Proof.
  induction 1 as [|e es [b Hb] _ [ss IH]].
  - exists []. constructor.
  - exists (salary b :: ss). constructor; [|done].
    unfold salary_at. by rewrite Hb.
Qed.

(** C10 (amended).  [Company.add_employee] does not look for its
    argument in the list: when [e] is an employee of the company already,
    [add_employee(e)] appends one more occurrence of [e], and the total that
    [calculate_total_salary()] returns afterwards is the floating-point sum
    of the total it returned before and of the salary of [e]: the loop adds
    the salary once for each occurrence, and rounds each addition. *)
Theorem Company_add_employee_again (σ : state) (c e : loc) (es : list loc)
    (s : float) :
  staff_at σ c = Some es → Forall (entity σ) es →
  e ∈ es → salary_at σ e = Some s →
  ∃ σ' t,
    Company_add_employee c e σ = Ok () σ' ∧
    staff_at σ' c = Some (es ++ [e]) ∧
    occurrences e (es ++ [e]) = S (occurrences e es) ∧
    2 ≤ occurrences e (es ++ [e]) ∧
    Company_calculate_total_salary c σ = Ok t σ ∧
    Company_calculate_total_salary c σ' = Ok (t + s)%float σ'.
Proof.
  intros Hes Hent Hin Hs.
  assert (entity σ e) as He.
  { apply salary_at_Some in Hs as (b & Hb & _). by exists b. }
  destruct (add_employee_run ACompany σ c e es Hes He)
    as (o & ll & ln & Ho & Hown & Hll & Hadd).
  simpl in Hadd. rewrite Hadd.
  destruct (entities_salaries σ es Hent) as [ss Hss].
  set (σ' := State (<[ll := PyList (es ++ [e])]> (heap σ)) (stdout σ ++ [ln])).
  assert (staff_at σ' c = Some (es ++ [e])) as Hes'.
  { by apply (list_at_update ACompany σ c ll es _ _ o). }
  exists σ', (total ss). split_and!; try done.
  - apply occurrences_snoc.
  - rewrite occurrences_snoc. apply occurrences_pos in Hin. lia.
  - by apply (total_salary_run σ c es).
  - rewrite <- total_snoc.
    apply (total_salary_run σ' c (es ++ [e])); [done|].
    apply Forall2_app.
    + eapply Forall2_impl; [|exact Hss]. intros x y Hxy. simpl.
      unfold σ'. by rewrite (salary_at_list_update σ ll x es).
    + constructor; [|constructor].
      unfold σ'. by rewrite (salary_at_list_update σ ll e es).
Qed.

(** ** Looking an employee up *)

Lemma scan_by_id_run (σ : state) (i : Z) (es : list loc) :
  Forall (entity σ) es →
  scan_by_id i es σ = Ok (first_with_id σ i es) σ.
Proof.
  induction 1 as [|e es [b Hb] _ IH]; [done|].
  simpl. unfold get_employee_id. rewrite !run_bind, (get_base_run _ _ _ Hb).
  unfold mret, M_ret, id_at. rewrite Hb. simpl.
  destruct (Z.eqb_spec (employee_id b) i) as [->|Hne].
  - by rewrite decide_True.
  - rewrite decide_False by congruence. apply IH.
Qed.

Lemma first_with_id_Some (σ : state) (i : Z) (es : list loc) (e : loc) :
  first_with_id σ i es = Some e ↔
  ∃ pre post, es = pre ++ e :: post ∧ id_at σ e = Some i ∧
              ∀ x, x ∈ pre → id_at σ x ≠ Some i.
Proof.
  induction es as [|y es IH]; simpl.
  - split; [done|]. intros (pre & post & Heq & _). by destruct pre.
  - destruct (decide (id_at σ y = Some i)) as [Hy|Hy].
    + split.
      * intros [= ->]. exists [], es. split_and!; [done|done|].
        intros x Hx. by apply elem_of_nil in Hx.
      * intros (pre & post & Heq & He & Hpre). destruct pre as [|z pre].
        -- simpl in Heq. congruence.
        -- simpl in Heq. injection Heq as -> ->.
           exfalso. apply (Hpre z); [left|done].
    + rewrite IH. split.
      * intros (pre & post & -> & He & Hpre). exists (y :: pre), post.
        split_and!; [done|done|].
        intros x [->|Hx]%elem_of_cons; [done|by apply Hpre].
      * intros (pre & post & Heq & He & Hpre). destruct pre as [|z pre].
        -- simpl in Heq. injection Heq as -> ->. done.
        -- simpl in Heq. injection Heq as -> ->. exists pre, post.
           split_and!; [done|done|].
           intros x Hx. apply Hpre. by right.
Qed.

Lemma first_with_id_None (σ : state) (i : Z) (es : list loc) :
  first_with_id σ i es = None ↔ ∀ x, x ∈ es → id_at σ x ≠ Some i.
Proof.
  induction es as [|y es IH]; simpl.
  - split; [|done]. intros _ x Hx. by apply elem_of_nil in Hx.
  - destruct (decide (id_at σ y = Some i)) as [Hy|Hy].
    + split; [done|]. intros Hall. exfalso. apply (Hall y); [left|done].
    + rewrite IH. split.
      * intros Hall x [->|Hx]%elem_of_cons; [done|by apply Hall].
      * intros Hall x Hx. apply Hall. by right.
Qed.

(** C6.  When the employees of a company are instances of [Employee],
    [get_employee_by_id(i)] returns normally and changes nothing.  It
    returns an entity [e] exactly when [e] is the first item of the list, in
    the order of the list, whose identifier is [i]; it returns [None]
    exactly when no item has the identifier [i]; and when one entity of the
    list alone has the identifier [i], it returns that entity. *)
Theorem get_employee_by_id_first (σ : state) (c : loc) (i : Z)
    (es : list loc) :
  staff_at σ c = Some es → Forall (entity σ) es →
  ∃ r, Company_get_employee_by_id c i σ = Ok r σ ∧
    (∀ e, r = Some e ↔
          ∃ pre post, es = pre ++ e :: post ∧ id_at σ e = Some i ∧
                      ∀ x, x ∈ pre → id_at σ x ≠ Some i) ∧
    (r = None ↔ ∀ x, x ∈ es → id_at σ x ≠ Some i) ∧
    (∀ e, e ∈ es → (∀ x, x ∈ es → id_at σ x = Some i ↔ x = e) →
          r = Some e).
Proof.
  intros (o & ll & Ho & _ & Hll & (n & ->))%(list_at_Some ACompany) Hent.
  exists (first_with_id σ i es). split_and!.
  - unfold Company_get_employee_by_id. exec. by apply scan_by_id_run.
  - intros e. apply first_with_id_Some.
  - apply first_with_id_None.
  - intros e He Huniq.
    destruct (first_with_id σ i es) as [e'|] eqn:Hr.
    + apply first_with_id_Some in Hr as (pre & post & -> & He' & _).
      f_equal. apply Huniq; [|done]. apply elem_of_app. right. left.
    + exfalso. apply (proj1 (first_with_id_None σ i es) Hr e He).
      by apply Huniq.
Qed.

(** ** A raise that includes the reports *)

Lemma added_succ (n : nat) (a x : float) :
  added (S n) a x = added n a (x + a)%float.
Proof. apply (Nat.iter_succ_r n (λ y, (y + a)%float) x). Qed.

Lemma skel_paid (amount : float) (o : obj) : skel (paid amount o) = skel o.
Proof.
  unfold paid. destruct (base o) as [b|] eqn:Hb; [|done].
  destruct (gt amount 0); [|done]. by destruct o; simplify_eq/=.
Qed.

Lemma skel_raised (amount : float) (o : obj) : skel (raised amount o) = skel o.
Proof.
  unfold raised. rewrite <- (skel_paid amount o).
  by destruct (paid amount o).
Qed.

Lemma skel_isinstance (o o' : obj) :
  skel o' = skel o → isinstance_Employee o' = isinstance_Employee o.
Proof. by destruct o, o'. Qed.

Lemma skel_owned_list (o o' : obj) :
  skel o' = skel o → owned_list o' = owned_list o.
Proof. destruct o, o'; simpl; congruence. Qed.

Lemma skel_list (o : obj) (xs : list loc) :
  skel o = skel (PyList xs) → ∃ ys, o = PyList ys.
Proof. destruct o; try done. eauto. Qed.

Lemma raised_list (amount : float) (xs : list loc) :
  raised amount (PyList xs) = PyList xs.
Proof. done. Qed.

(** The loop of [Manager.give_raise] applies [raised] to the items of the
    list, one after the other. *)
Lemma for_each_give_raise_run (amount : float) (xs : list loc) :
  ∀ σ, Forall (entity σ) xs →
  ∃ lns, for_each xs (λ employee, give_raise employee amount) σ =
         Ok () (State (foldl (λ h x, alter (raised amount) x h) (heap σ) xs)
                      (stdout σ ++ lns)).
Proof.
  induction xs as [|x xs IH]; intros σ Hent.
  - exists []. simpl. rewrite app_nil_r. by destruct σ.
  - apply Forall_cons_1 in Hent as [(o & Ho & Hi)%entity_alt Hent].
    destruct (give_raise_run σ x o amount Ho Hi) as [lns1 Hrun].
    simpl. rewrite run_bind, Hrun.
    set (σ1 := State (<[x := raised amount o]> (heap σ)) (stdout σ ++ lns1)).
    destruct (IH σ1) as [lns2 Hrest].
    { eapply Forall_impl; [|exact Hent]. intros y (oy & Hy & Hiy)%entity_alt.
      apply entity_alt. unfold σ1. simpl.
      destruct (decide (x = y)) as [->|Hne].
      - rewrite lookup_insert_eq. eexists. split; [done|].
        rewrite (skel_isinstance o _ (skel_raised amount o)). congruence.
      - rewrite lookup_insert_ne by done. eauto. }
    rewrite Hrest. exists (lns1 ++ lns2). unfold σ1. simpl.
    rewrite <- app_assoc. do 2 f_equal.
    f_equal. apply map_eq. intros l. rewrite lookup_alter, lookup_insert.
    destruct (decide (x = l)) as [->|]; [by rewrite Ho|done].
Qed.

Lemma lookup_foldl_alter (f : obj → obj) (xs : list loc) (l : loc) :
  ∀ h : gmap loc obj,
  foldl (λ h x, alter f x h) h xs !! l =
  Nat.iter (occurrences l xs) f <$> h !! l.
Proof.
  induction xs as [|x xs IH]; intros h; simpl.
  - by destruct (h !! l).
  - rewrite IH, lookup_alter. destruct (decide (x = l)) as [->|Hne]; simpl.
    + destruct (h !! l) as [o|]; simpl; [|done].
      f_equal. symmetry. apply (Nat.iter_succ_r (occurrences l xs) f o).
    + done.
Qed.

Lemma base_iter_raised (amount : float) (n : nat) (o : obj) (b : fields) :
  gt amount 0 = true → base o = Some b →
  base (Nat.iter n (raised amount) o) =
  Some (Fields (employee_id b) (name b) (added n amount (salary b))).
Proof.
  intros Hgt Hb. induction n as [|n IH]; simpl.
  - rewrite Hb. by destruct b.
  - by rewrite base_raised, (base_paid _ _ _ IH), Hgt.
Qed.

Lemma iter_raised_SalesPerson (amount : float) (n : nat) (b : fields)
    (r s : float) :
  ∃ b', Nat.iter n (raised amount) (SalesPerson b r s) =
        SalesPerson b' (added n 0.01 r) s.
Proof.
  induction n as [|n [b' IH]]; simpl.
  - by exists b.
  - rewrite IH. unfold raised, paid. simpl.
    destruct (gt amount 0); by eexists.
Qed.

Lemma iter_raised_other (amount : float) (n : nat) (o : obj) :
  base o = None → Nat.iter n (raised amount) o = o.
Proof.
  intros Hb. induction n as [|n IH]; simpl; [done|].
  rewrite IH. unfold raised, paid. rewrite Hb. by destruct o.
Qed.

(** [m.give_raise(amount, True)] is the base raise on [m] followed by one
    call of [give_raise(amount)] on each report. *)
Lemma Manager_give_raise_steps (σ : state) (m : loc) (xs : list loc)
    (amount : float) :
  reports_at σ m = Some xs →
  Manager_give_raise m amount true σ =
  (Employee_give_raise m amount;;
   for_each xs (λ employee, give_raise employee amount)) σ.
Proof.
  intros (o & ll & Ho & _ & Hll & (b & d & ->))%(list_at_Some AManager).
  assert (ll ≠ m) by (intros ->; congruence).
  destruct (Employee_give_raise_run σ m _ b amount Ho eq_refl) as [ln Hrun].
  unfold Manager_give_raise, Manager_give_raise_with.
  rewrite !run_bind, Hrun.
  remember (State (<[m := paid amount (Manager b d ll)]> (heap σ))
                  (stdout σ ++ [ln])) as σ1 eqn:Hσ1.
  assert (heap σ1 !! m = Some (Manager (Fields (employee_id b) (name b)
            (if gt amount 0 then salary b + amount else salary b)%float) d ll))
    as Hm1.
  { rewrite Hσ1. unfold paid. simpl. rewrite lookup_insert_eq.
    destruct (gt amount 0); [done|]. by destruct b. }
  assert (heap σ1 !! ll = Some (PyList xs)) as Hll1.
  { rewrite Hσ1. simpl. by rewrite lookup_insert_ne. }
  by exec.
Qed.

(** The state that [m.give_raise(amount, True)] ends in. *)
Lemma Manager_give_raise_run (σ : state) (m : loc) (xs : list loc)
    (amount : float) :
  reports_at σ m = Some xs → Forall (entity σ) xs →
  ∃ lns,
    Manager_give_raise m amount true σ =
    Ok () (State (foldl (λ h x, alter (raised amount) x h)
                    (alter (paid amount) m (heap σ)) xs)
                 (stdout σ ++ lns)).
Proof.
  intros Hxs Hent. rewrite (Manager_give_raise_steps σ m xs amount Hxs).
  apply (list_at_Some AManager) in Hxs
    as (o & ll & Ho & _ & Hll & (b & d & ->)).
  destruct (Employee_give_raise_run σ m _ b amount Ho eq_refl) as [ln Hrun].
  rewrite run_bind, Hrun.
  set (σ1 := State (<[m := paid amount (Manager b d ll)]> (heap σ))
                   (stdout σ ++ [ln])).
  destruct (for_each_give_raise_run amount xs σ1) as [lns Hloop].
  { eapply Forall_impl; [|exact Hent]. intros y (oy & Hy & Hiy)%entity_alt.
    apply entity_alt. unfold σ1. simpl.
    destruct (decide (m = y)) as [<-|Hne].
    - rewrite lookup_insert_eq. eexists. split; [done|].
      by rewrite (skel_isinstance _ _ (skel_paid amount (Manager b d ll))).
    - rewrite lookup_insert_ne by done. eauto. }
  rewrite Hloop. exists (ln :: lns). unfold σ1. simpl.
  rewrite <- app_assoc. do 2 f_equal.
  f_equal. apply map_eq. intros l. rewrite lookup_alter, lookup_insert.
  destruct (decide (m = l)) as [->|]; [by rewrite Ho|done].
Qed.

Lemma skel_iter_raised (amount : float) (n : nat) (o : obj) :
  skel (Nat.iter n (raised amount) o) = skel o.
Proof.
  induction n as [|n IH]; simpl; [done|]. by rewrite skel_raised.
Qed.

Lemma items_at_skel (σ σ' : state) (l : loc) (o o' : obj) :
  heap σ !! l = Some o → heap σ' !! l = Some o' →
  skel o' = skel o → (∀ xs, o = PyList xs → o' = o) →
  items_at σ' l = items_at σ l.
Proof.
  intros Ho Ho' Hskel Hlist. unfold items_at. rewrite Ho, Ho'.
  destruct o; try (by destruct o'). by rewrite (Hlist _ eq_refl).
Qed.

(** C7 (amended).  Let the reports of the manager [m] be instances of
    [Employee] and let [amount > 0].  Then
    [m.give_raise(amount, include_reports=True)] returns normally, and it is
    the base raise on [m] followed by one call of [give_raise(amount)],
    resolved on the class of the receiver, for each item of the reports.
    Each of these calls adds [amount] to the salary of its receiver, in
    floating point, and each call on a sales person adds the literal [0.01]
    to its commission rate, in floating point.  So the salary of every
    object has had [amount] added once if it is [m], and once more for each
    of its occurrences in the reports; the commission rate of every sales
    person has had 0.01 added once for each of its occurrences in the
    reports.  The salary of [m] is the floating-point sum [salary + amount]
    when [m] is not among its own reports, and so is the salary of a report
    other than [m] that occurs once, whose commission rate, if it is a sales
    person, is the floating-point sum of the old rate and 0.01.  No list has
    changed.  In the scenario of the example, Charlie ends with a salary of
    90000, Alice with 60000, and David with 50000 and a commission rate of
    0.11. *)
Theorem Manager_give_raise_include_reports :
  (∀ (σ : state) (m : loc) (xs : list loc) (amount : float),
     reports_at σ m = Some xs → Forall (entity σ) xs → gt amount 0 = true →
     ∃ σ', Manager_give_raise m amount true σ = Ok () σ' ∧
       (Employee_give_raise m amount;;
        for_each xs (λ employee, give_raise employee amount)) σ = Ok () σ' ∧
       (∀ l s, salary_at σ l = Some s →
          salary_at σ' l =
          Some (added ((if decide (l = m) then 1 else 0) + occurrences l xs)
                  amount s)) ∧
       (∀ l r, commission_rate_at σ l = Some r →
          commission_rate_at σ' l = Some (added (occurrences l xs) 0.01 r)) ∧
       (∀ l s, salary_at σ l = Some s →
          (if decide (l = m) then 1 else 0) + occurrences l xs = 1 →
          salary_at σ' l = Some (s + amount)%float) ∧
       (∀ l r, commission_rate_at σ l = Some r → occurrences l xs = 1 →
          commission_rate_at σ' l = Some (r + 0.01)%float) ∧
       (∀ l, items_at σ' l = items_at σ l)) ∧
  (∃ alice charlie david σ',
     scenario initial = Ok (alice, charlie, david) σ' ∧
     reports_at σ' charlie = Some [alice; david] ∧
     salary_at σ' charlie = Some 90000%float ∧
     salary_at σ' alice = Some 60000%float ∧
     salary_at σ' david = Some 50000%float ∧
     commission_rate_at σ' david = Some 0.11%float).
Proof.
  split.
  - intros σ m xs amount Hxs Hent Hpos.
    destruct (Manager_give_raise_run σ m xs amount Hxs Hent) as [lns Hrun].
    pose proof (Manager_give_raise_steps σ m xs amount Hxs) as Hsteps.
    apply (list_at_Some AManager) in Hxs
      as (om & ll & Hm & _ & Hll & (bm & d & ->)).
    eexists. split; [exact Hrun|]. split; [by rewrite <- Hsteps|].
    match goal with
    | |- ?A ∧ ?B ∧ ?C ∧ ?D ∧ ?E =>
        assert A as Hsal; [|assert B as Hrate;
          [|split; [exact Hsal|split; [exact Hrate|split; [|split]]]]]
    end.
    + intros l s (b & (o & Ho & Hb)%fields_at_Some & <-)%salary_at_Some.
      unfold salary_at, fields_at. simpl.
      rewrite lookup_foldl_alter, lookup_alter.
      destruct (decide (l = m)) as [->|Hne].
      * rewrite decide_True by done. rewrite Hm in Ho. simplify_eq/=.
        rewrite Hm. simpl.
        rewrite (base_iter_raised amount _ _ _ Hpos
                   (base_paid amount (Manager b d ll) b eq_refl)).
        simpl. rewrite Hpos. f_equal. symmetry. apply added_succ.
      * rewrite decide_False by done. rewrite Ho. simpl.
        rewrite (base_iter_raised amount _ _ _ Hpos Hb). done.
    + intros l r Hr. unfold commission_rate_at in *. simpl.
      destruct (heap σ !! l) as [[| | b r' s | |]|] eqn:Ho; try done.
      injection Hr as ->.
      assert (m ≠ l) by (intros ->; congruence).
      rewrite lookup_foldl_alter, lookup_alter, decide_False by done.
      rewrite Ho. simpl.
      destruct (iter_raised_SalesPerson amount (occurrences l xs) b r s)
        as [b' ->].
      done.
    + intros l s Hs Hone. by rewrite (Hsal l s Hs), Hone.
    + intros l r Hr Hone. by rewrite (Hrate l r Hr), Hone.
    + intros l.
      assert ((State (foldl (λ h x, alter (raised amount) x h)
                 (alter (paid amount) m (heap σ)) xs) (stdout σ ++ lns)
               : state).(heap) !! l =
              Nat.iter (occurrences l xs) (raised amount)
              <$> ((if decide (m = l) then paid amount else id)
                   <$> heap σ !! l)) as Hl.
      { simpl. rewrite lookup_foldl_alter, lookup_alter.
        destruct (decide (m = l)) as [->|]; [done|].
        by destruct (heap σ !! l). }
      destruct (heap σ !! l) as [o|] eqn:Ho; simpl in Hl.
      * eapply (items_at_skel σ _ l o); [done|exact Hl| |].
        -- rewrite skel_iter_raised.
           destruct (decide (m = l)); [apply skel_paid|done].
        -- intros ys ->.
           assert (m ≠ l) by (intros ->; congruence).
           rewrite decide_False by done. by apply iter_raised_other.
      * unfold items_at. simpl. by rewrite Hl, Ho.
  - eexists _, _, _, _. split; [vm_compute; reflexivity|].
    split; [reflexivity|].
    split_and!; vm_compute; reflexivity.
Qed.

(** ** Every operation is a sequence of elementary changes *)

Lemma orderly_ret {A} (a : A) : orderly (mret a : M A).
Proof. intros σ. apply rtc_refl. Qed.

Lemma orderly_raise {A} (e : exn) : orderly (raise e : M A).
Proof. intros σ. apply rtc_refl. Qed.

Lemma orderly_bind {A B} (m : M A) (f : A → M B) :
  orderly m → (∀ a, orderly (f a)) → orderly (m ≫= f).
Proof.
  intros Hm Hf σ. rewrite final_state_bind. specialize (Hm σ).
  destruct (m σ) as [a σ'|e σ']; simpl in Hm; [|done].
  etrans; [exact Hm|]. apply Hf.
Qed.

Lemma orderly_readonly {A} (m : M A) : readonly m → orderly m.
Proof. intros Hm σ. rewrite Hm. apply rtc_refl. Qed.

Lemma orderly_for_each (xs : list loc) (body : loc → M unit) :
  (∀ x, orderly (body x)) → orderly (for_each xs body).
Proof.
  intros Hbody. induction xs as [|x xs IH]; simpl.
  - apply orderly_ret.
  - apply orderly_bind; [apply Hbody|]. intros _. apply IH.
Qed.

Lemma orderly_deref (l : loc) : orderly (deref l).
Proof.
  apply orderly_readonly. intros σ. unfold deref.
  by destruct (heap σ !! l).
Qed.

Lemma orderly_print (ln : line) : orderly (print ln).
Proof. intros σ. apply rtc_once. by apply mutation_output. Qed.

Lemma orderly_store_attribute (l : loc) (o o' : obj) (σ : state) :
  heap σ !! l = Some o → skel o' = skel o → skel o ≠ SkList →
  evolves σ (final_state (store l o' σ)).
Proof.
  intros Ho Hskel Hlist. apply rtc_once.
  by apply (mutation_attribute σ _ l o o').
Qed.

Lemma skel_with_base (b : fields) (o : obj) (v : float) (n : string) :
  base o = Some b →
  skel (with_base (Fields (employee_id b) n v) o) = skel o.
Proof. intros Hb. by destruct o; simplify_eq/=. Qed.

Lemma base_not_list (o : obj) (b : fields) : base o = Some b → skel o ≠ SkList.
Proof. by destruct o. Qed.

Lemma orderly_set_salary (self : loc) (v : float) : orderly (set_salary self v).
Proof.
  intros σ. unfold set_salary. rewrite final_state_bind. unfold deref.
  destruct (heap σ !! self) as [o|] eqn:Ho; [|apply rtc_refl].
  destruct (base o) as [b|] eqn:Hb; [|apply rtc_refl].
  apply (orderly_store_attribute self o); [done| |by eapply base_not_list].
  by apply skel_with_base.
Qed.

Lemma orderly_set_commission_rate (self : loc) (v : float) :
  orderly (set_commission_rate self v).
Proof.
  intros σ. unfold set_commission_rate. rewrite final_state_bind.
  unfold deref.
  destruct (heap σ !! self) as [o|] eqn:Ho; [|apply rtc_refl].
  destruct o; try apply rtc_refl.
  by eapply orderly_store_attribute.
Qed.

Lemma orderly_list_remove (ll x : loc) : orderly (list_remove ll x).
Proof.
  intros σ. unfold list_remove, get_items. rewrite final_state_bind, run_bind.
  unfold deref.
  destruct (heap σ !! ll) as [o|] eqn:Ho; [|apply rtc_refl].
  destruct o as [| | | |xs]; try apply rtc_refl. simpl.
  destruct (contains x xs); [|apply rtc_refl].
  apply rtc_once. apply (mutation_items σ _ ll xs (remove_first x xs)).
  - unfold items_at. by rewrite Ho.
  - intros y Hy. left. clear Ho. induction xs as [|z xs IH]; [done|].
    simpl in Hy. destruct (decide (z = x)).
    + by right.
    + apply elem_of_cons in Hy as [->|Hy]; [left|right; by apply IH].
  - done.
Qed.

Create HintDb orderly.

#[local] Hint Resolve orderly_ret orderly_raise orderly_deref orderly_print
  orderly_set_salary orderly_set_commission_rate orderly_list_remove
  : orderly.

(** Decompose a computation along its binds and its case distinctions. *)
Ltac orderly_step :=
  first
    [ solve [auto with orderly nocore]
    | apply orderly_bind; [|intros ?]
    | apply orderly_for_each; intros ?
    | match goal with
      | |- orderly (match ?x with _ => _ end) => destruct x
      end ].

Ltac prove_orderly := repeat orderly_step.

Lemma orderly_get_base (l : loc) : orderly (get_base l).
Proof. unfold get_base. prove_orderly. Qed.

Lemma orderly_get_name (l : loc) : orderly (get_name l).
Proof. unfold get_name. prove_orderly. Qed.

Lemma orderly_get_items (l : loc) : orderly (get_items l).
Proof. unfold get_items. prove_orderly. Qed.

Lemma orderly_get_employees (l : loc) : orderly (get_employees l).
Proof. unfold get_employees. prove_orderly. Qed.

Lemma orderly_get_department (l : loc) : orderly (get_department l).
Proof. unfold get_department. prove_orderly. Qed.

Lemma orderly_get_commission_rate (l : loc) : orderly (get_commission_rate l).
Proof. unfold get_commission_rate. prove_orderly. Qed.

Lemma orderly_get_sales_achieved (l : loc) : orderly (get_sales_achieved l).
Proof. unfold get_sales_achieved. prove_orderly. Qed.

#[local] Hint Resolve orderly_get_base orderly_get_name orderly_get_items
  orderly_get_employees orderly_get_department orderly_get_commission_rate
  orderly_get_sales_achieved : orderly.

Lemma orderly_list_contains (ll x : loc) : orderly (list_contains ll x).
Proof. unfold list_contains. prove_orderly. Qed.

Lemma orderly_get_employee_id (l : loc) : orderly (get_employee_id l).
Proof. unfold get_employee_id. prove_orderly. Qed.

Lemma orderly_calculate_commission (l : loc) :
  orderly (calculate_commission l).
Proof. unfold calculate_commission. prove_orderly. Qed.

Lemma orderly_Employee_display_details (l : loc) :
  orderly (Employee_display_details l).
Proof. unfold Employee_display_details. prove_orderly. Qed.

Lemma orderly_Employee_give_raise (l : loc) (amount : float) :
  orderly (Employee_give_raise l amount).
Proof. unfold Employee_give_raise. prove_orderly. Qed.

#[local] Hint Resolve orderly_list_contains orderly_get_employee_id
  orderly_calculate_commission orderly_Employee_display_details
  orderly_Employee_give_raise : orderly.

Lemma orderly_SalesPerson_display_details (l : loc) :
  orderly (SalesPerson_display_details l).
Proof. unfold SalesPerson_display_details. prove_orderly. Qed.

Lemma orderly_SalesPerson_give_raise (l : loc) (amount : float) :
  orderly (SalesPerson_give_raise l amount).
Proof. unfold SalesPerson_give_raise. prove_orderly. Qed.

Lemma orderly_Manager_display_details (l : loc) :
  orderly (Manager_display_details l).
Proof. unfold Manager_display_details. prove_orderly. Qed.

Lemma orderly_Manager_give_raise_with (call : loc → float → M unit) (l : loc)
    (amount : float) (include_reports : bool) :
  (∀ e a, orderly (call e a)) →
  orderly (Manager_give_raise_with call l amount include_reports).
Proof.
  intros Hcall. unfold Manager_give_raise_with. prove_orderly.
Qed.

#[local] Hint Resolve orderly_SalesPerson_display_details
  orderly_SalesPerson_give_raise orderly_Manager_display_details : orderly.

Lemma orderly_give_raise (l : loc) (amount : float) :
  orderly (give_raise l amount).
Proof.
  unfold give_raise. prove_orderly.
Qed.

Lemma orderly_Manager_give_raise (l : loc) (amount : float) (incl : bool) :
  orderly (Manager_give_raise l amount incl).
Proof.
  apply orderly_Manager_give_raise_with. intros. apply orderly_give_raise.
Qed.

Lemma orderly_display_details (l : loc) : orderly (display_details l).
Proof. unfold display_details. prove_orderly. Qed.

#[local] Hint Resolve orderly_give_raise orderly_Manager_give_raise
  orderly_display_details : orderly.

Lemma orderly_Company_display_all_employees (l : loc) :
  orderly (Company_display_all_employees l).
Proof. unfold Company_display_all_employees. prove_orderly. Qed.

Lemma orderly_scan_by_id (i : Z) (xs : list loc) : orderly (scan_by_id i xs).
Proof.
  induction xs as [|x xs IH]; simpl; prove_orderly.
Qed.

Lemma orderly_add_salaries (xs : list loc) :
  ∀ acc, orderly (add_salaries acc xs).
Proof. induction xs as [|x xs IH]; intros acc; simpl; prove_orderly. Qed.

#[local] Hint Resolve orderly_scan_by_id orderly_add_salaries : orderly.

Lemma orderly_Company_get_employee_by_id (l : loc) (i : Z) :
  orderly (Company_get_employee_by_id l i).
Proof. unfold Company_get_employee_by_id. prove_orderly. Qed.

Lemma orderly_Company_calculate_total_salary (l : loc) :
  orderly (Company_calculate_total_salary l).
Proof. unfold Company_calculate_total_salary. prove_orderly. Qed.

#[local] Hint Resolve orderly_Company_display_all_employees
  orderly_Company_get_employee_by_id orderly_Company_calculate_total_salary
  : orderly.

(** ** The effect of [add_employee] and of [remove_employee] on the heap *)

(** Whatever its arguments designate, [add_employee] leaves the heap as it
    is or appends its argument, an instance of [Employee], to the list of
    the receiver. *)
Lemma add_employee_effect (k : keeper) (self e : loc) (σ : state) :
  heap (final_state (add_employee k self e σ)) = heap σ ∨
  ∃ o ll xs,
    heap σ !! self = Some o ∧ owned_list o = Some ll ∧
    heap σ !! ll = Some (PyList xs) ∧ entity σ e ∧
    heap (final_state (add_employee k self e σ))
    = <[ll := PyList (xs ++ [e])]> (heap σ).
Proof.
  assert (∀ (A : Type) (r : result A) (h : gmap loc obj),
            heap (final_state r) = h →
            heap (final_state r) = h ∨
            ∃ o ll xs, heap σ !! self = Some o ∧ owned_list o = Some ll ∧
              heap σ !! ll = Some (PyList xs) ∧ entity σ e ∧
              heap (final_state r) = <[ll := PyList (xs ++ [e])]> (heap σ))
    as stay by (intros; by left).
  destruct (heap σ !! e) as [oe|] eqn:He; cycle 1.
  { apply stay. destruct k; simpl;
      unfold Manager_add_employee, Company_add_employee; by exec. }
  destruct (isinstance_Employee oe) eqn:Hi; cycle 1.
  { apply stay. destruct k; simpl;
      unfold Manager_add_employee, Company_add_employee; exec; rewrite Hi;
      exec; repeat case_match; by simplify_eq/=. }
  destruct (heap σ !! self) as [o|] eqn:Ho; cycle 1.
  { apply stay. destruct k; simpl;
      unfold Manager_add_employee, Company_add_employee; exec; rewrite Hi;
      by exec. }
  destruct (owned_list o) as [ll|] eqn:Hown; cycle 1.
  { apply stay. destruct k; simpl;
      unfold Manager_add_employee, Company_add_employee; exec; rewrite Hi;
      exec; by destruct o. }
  destruct (heap σ !! ll) as [ol|] eqn:Hll; cycle 1.
  { apply stay. destruct k; simpl;
      unfold Manager_add_employee, Company_add_employee; exec; rewrite Hi;
      exec; destruct o; simplify_eq/=; by exec. }
  destruct ol as [| | | |xs];
    try (apply stay; destruct k; simpl;
         unfold Manager_add_employee, Company_add_employee; exec; rewrite Hi;
         exec; destruct o; simplify_eq/=; by exec).
  right. exists o, ll, xs. split_and!; try done.
  { apply entity_alt. eauto. }
  destruct k; simpl; unfold Manager_add_employee, Company_add_employee;
    exec; rewrite Hi; exec; destruct o; simplify_eq/=; exec;
    repeat case_match; by simplify_eq/=.
Qed.

(** Whatever its arguments designate, [remove_employee] leaves the heap as
    it is or removes the first occurrence of its argument from the list of
    the receiver. *)
Lemma remove_employee_effect (k : keeper) (self e : loc) (σ : state) :
  heap (final_state (remove_employee k self e σ)) = heap σ ∨
  ∃ o ll xs,
    heap σ !! self = Some o ∧ owned_list o = Some ll ∧
    heap σ !! ll = Some (PyList xs) ∧
    heap (final_state (remove_employee k self e σ))
    = <[ll := PyList (remove_first e xs)]> (heap σ).
Proof.
  assert (∀ (A : Type) (r : result A) (h : gmap loc obj),
            heap (final_state r) = h →
            heap (final_state r) = h ∨
            ∃ o ll xs, heap σ !! self = Some o ∧ owned_list o = Some ll ∧
              heap σ !! ll = Some (PyList xs) ∧
              heap (final_state r)
              = <[ll := PyList (remove_first e xs)]> (heap σ))
    as stay by (intros; by left).
  destruct (heap σ !! self) as [o|] eqn:Ho; cycle 1.
  { apply stay. destruct k; simpl;
      unfold Manager_remove_employee, Company_remove_employee; by exec. }
  destruct (owned_list o) as [ll|] eqn:Hown; cycle 1.
  { apply stay. destruct k; simpl;
      unfold Manager_remove_employee, Company_remove_employee; exec;
      by destruct o. }
  destruct (heap σ !! ll) as [ol|] eqn:Hll; cycle 1.
  { apply stay. destruct k; simpl;
      unfold Manager_remove_employee, Company_remove_employee; exec;
      destruct o; simplify_eq/=; by exec. }
  destruct ol as [| | | |xs];
    try (apply stay; destruct k; simpl;
         unfold Manager_remove_employee, Company_remove_employee; exec;
         destruct o; simplify_eq/=; by exec).
  destruct (contains e xs) eqn:Hin; cycle 1.
  { apply stay. destruct k; simpl;
      unfold Manager_remove_employee, Company_remove_employee; exec;
      destruct o; simplify_eq/=; exec; rewrite Hin; exec;
      repeat case_match; by simplify_eq/=. }
  right. exists o, ll, xs. split_and!; try done.
  destruct k; simpl; unfold Manager_remove_employee, Company_remove_employee;
    exec; destruct o; simplify_eq/=; exec; rewrite Hin; exec; rewrite ?Hin;
    exec; repeat case_match; by simplify_eq/=.
Qed.

Lemma orderly_add_employee (k : keeper) (self e : loc) :
  orderly (add_employee k self e).
Proof.
  intros σ. apply rtc_once.
  destruct (add_employee_effect k self e σ)
    as [Hsame|(o & ll & xs & Ho & Hown & Hll & He & Hheap)].
  - by apply mutation_output.
  - apply (mutation_items σ _ ll xs (xs ++ [e])); [|
      |done].
    + unfold items_at. by rewrite Hll.
    + intros x [Hx|Hx%list_elem_of_singleton]%elem_of_app; [by left|].
      right. by subst.
Qed.

Lemma orderly_remove_employee (k : keeper) (self e : loc) :
  orderly (remove_employee k self e).
Proof.
  intros σ. apply rtc_once.
  destruct (remove_employee_effect k self e σ)
    as [Hsame|(o & ll & xs & Ho & Hown & Hll & Hheap)].
  - by apply mutation_output.
  - apply (mutation_items σ _ ll xs (remove_first e xs)); [| |done].
    + unfold items_at. by rewrite Hll.
    + intros y Hy. left. clear Hll Hheap.
      induction xs as [|z xs IH]; [done|].
      simpl in Hy. destruct (decide (z = e)).
      * by right.
      * apply elem_of_cons in Hy as [->|Hy]; [left|right; by apply IH].
Qed.

Lemma orderly_Manager_add_employee (self e : loc) :
  orderly (Manager_add_employee self e).
Proof. apply (orderly_add_employee AManager). Qed.

Lemma orderly_Company_add_employee (self e : loc) :
  orderly (Company_add_employee self e).
Proof. apply (orderly_add_employee ACompany). Qed.

Lemma orderly_Manager_remove_employee (self e : loc) :
  orderly (Manager_remove_employee self e).
Proof. apply (orderly_remove_employee AManager). Qed.

Lemma orderly_Company_remove_employee (self e : loc) :
  orderly (Company_remove_employee self e).
Proof. apply (orderly_remove_employee ACompany). Qed.

#[local] Hint Resolve orderly_Manager_add_employee
  orderly_Company_add_employee orderly_Manager_remove_employee
  orderly_Company_remove_employee : orderly.

(** ** Constructors *)

Lemma fresh_unused (h : gmap loc obj) : h !! fresh (dom h) = None.
Proof. apply not_elem_of_dom, is_fresh. Qed.

Lemma new_instance_run (o : obj) (σ : state) :
  ∃ l, alloc o σ = Ok l (State (<[l := o]> (heap σ)) (stdout σ)) ∧
       heap σ !! l = None.
Proof. eexists. split; [reflexivity|]. apply fresh_unused. Qed.

Lemma new_owner_run (mk : loc → obj) (σ : state) :
  ∃ l ll,
    (ll ← alloc (PyList []); alloc (mk ll)) σ
    = Ok l (State (<[l := mk ll]> (<[ll := PyList []]> (heap σ))) (stdout σ)) ∧
    heap σ !! ll = None ∧ heap σ !! l = None ∧ l ≠ ll.
Proof.
  eexists _, _. split; [reflexivity|]. simpl.
  pose proof (fresh_unused (heap σ)) as Hll.
  pose proof (fresh_unused (<[fresh (dom (heap σ)) := PyList []]> (heap σ)))
    as Hl.
  split_and!; [done| |].
  - apply lookup_insert_None in Hl. by destruct Hl.
  - intros Heq. rewrite Heq in Hl at 1. by rewrite lookup_insert_eq in Hl.
Qed.

Lemma orderly_new_Employee (i : Z) (n : string) (s : float) :
  orderly (new_Employee i n s).
Proof.
  intros σ. unfold new_Employee.
  destruct (new_instance_run (Employee (Fields i n s)) σ) as (l & -> & Hl).
  apply rtc_once. by apply (mutation_new σ _ l (Employee (Fields i n s))).
Qed.

Lemma orderly_new_SalesPerson (i : Z) (n : string) (s r : float) :
  orderly (new_SalesPerson i n s r).
Proof.
  intros σ. unfold new_SalesPerson.
  destruct (new_instance_run (SalesPerson (Fields i n s) r 0%float) σ)
    as (l & -> & Hl).
  apply rtc_once.
  by apply (mutation_new σ _ l (SalesPerson (Fields i n s) r 0%float)).
Qed.

Lemma orderly_new_Manager (i : Z) (n : string) (s : float) (d : string) :
  orderly (new_Manager i n s d).
Proof.
  intros σ. unfold new_Manager.
  destruct (new_owner_run (Manager (Fields i n s) d) σ)
    as (l & ll & -> & Hll & Hl & Hne).
  apply rtc_once.
  by apply (mutation_new_owner σ _ l ll (Manager (Fields i n s) d ll)).
Qed.

Lemma orderly_new_Company (n : string) : orderly (new_Company n).
Proof.
  intros σ. unfold new_Company.
  destruct (new_owner_run (Company n) σ) as (l & ll & -> & Hll & Hl & Hne).
  apply rtc_once. by apply (mutation_new_owner σ _ l ll (Company n ll)).
Qed.

(** ** Assignments *)

Lemma orderly_set_name (self : loc) (n : string) : orderly (set_name self n).
Proof.
  intros σ. unfold set_name. rewrite final_state_bind. unfold deref.
  destruct (heap σ !! self) as [o|] eqn:Ho; [|apply rtc_refl].
  destruct o; try apply rtc_refl; by eapply orderly_store_attribute.
Qed.

Lemma orderly_assign_salary (self : loc) (v : float) :
  orderly (assign_salary self v).
Proof. unfold assign_salary. prove_orderly. Qed.

Lemma orderly_set_department (self : loc) (d : string) :
  orderly (set_department self d).
Proof.
  intros σ. unfold set_department. rewrite final_state_bind. unfold deref.
  destruct (heap σ !! self) as [o|] eqn:Ho; [|apply rtc_refl].
  destruct o; try apply rtc_refl; by eapply orderly_store_attribute.
Qed.

Lemma orderly_assign_commission_rate (self : loc) (v : float) :
  orderly (assign_commission_rate self v).
Proof. unfold assign_commission_rate. prove_orderly. Qed.

Lemma orderly_set_sales_achieved (self : loc) (v : float) :
  orderly (set_sales_achieved self v).
Proof.
  intros σ. unfold set_sales_achieved. rewrite final_state_bind. unfold deref.
  destruct (heap σ !! self) as [o|] eqn:Ho; [|apply rtc_refl].
  destruct o; try apply rtc_refl; by eapply orderly_store_attribute.
Qed.

(** ** Every operation *)

Lemma orderly_void {A} (m : M A) : orderly m → orderly (void m).
Proof. intros Hm. unfold void. prove_orderly. Qed.

Lemma orderly_perform (c : call) : orderly (perform c).
Proof.
  destruct c; simpl.
  - apply orderly_void, orderly_new_Employee.
  - apply orderly_void, orderly_new_Manager.
  - apply orderly_void, orderly_new_SalesPerson.
  - apply orderly_void, orderly_new_Company.
  - apply orderly_void, orderly_get_employee_id.
  - apply orderly_display_details.
  - apply orderly_give_raise.
  - prove_orderly.
  - prove_orderly.
  - prove_orderly.
  - apply orderly_void, orderly_calculate_commission.
  - prove_orderly.
  - prove_orderly.
  - prove_orderly.
  - apply orderly_set_name.
  - apply orderly_assign_salary.
  - apply orderly_set_department.
  - apply orderly_assign_commission_rate.
  - apply orderly_set_sales_achieved.
Qed.

Lemma evolves_after (cs : list call) (σ : state) : evolves σ (after cs σ).
Proof.
  revert σ. induction cs as [|c cs IH]; intros σ; simpl.
  - apply rtc_refl.
  - etrans; [apply (orderly_perform c)|]. apply IH.
Qed.

(** ** What the elementary changes preserve *)

Lemma mutation_skel_at (σ σ' : state) (l : loc) (k : skeleton) :
  mutation σ σ' → skel_at σ l = Some k → skel_at σ' l = Some k.
Proof.
  unfold skel_at.
  intros [Hh | l0 o o' Ho Hskel _ Hh | ll xs xs' Hxs _ Hh
         | l0 o Hl0 _ _ Hh | l0 ll o Hll Hl0 Hne _ Hh] Hk; rewrite Hh.
  - done.
  - destruct (decide (l0 = l)) as [->|];
      [|by rewrite lookup_insert_ne].
    rewrite lookup_insert_eq. rewrite Ho in Hk. simpl in *. congruence.
  - destruct (decide (ll = l)) as [->|];
      [|by rewrite lookup_insert_ne].
    rewrite lookup_insert_eq. unfold items_at in Hxs.
    destruct (heap σ !! l) as [[]|]; by simplify_eq/=.
  - destruct (decide (l0 = l)) as [->|];
      [by rewrite Hl0 in Hk|by rewrite lookup_insert_ne].
  - destruct (decide (l0 = l)) as [->|]; [by rewrite Hl0 in Hk|].
    rewrite lookup_insert_ne by done.
    destruct (decide (ll = l)) as [->|];
      [by rewrite Hll in Hk|by rewrite lookup_insert_ne].
Qed.

Lemma evolves_skel_at (σ σ' : state) (l : loc) (k : skeleton) :
  evolves σ σ' → skel_at σ l = Some k → skel_at σ' l = Some k.
Proof. induction 1; eauto using mutation_skel_at. Qed.

Lemma skel_at_Some (σ : state) (l : loc) (k : skeleton) :
  skel_at σ l = Some k ↔ ∃ o, heap σ !! l = Some o ∧ skel o = k.
Proof.
  unfold skel_at. destruct (heap σ !! l) as [o|]; simpl.
  - split; [intros [= <-]; eauto|]. by intros (? & [= <-] & <-).
  - split; [done|]. by intros (? & ? & ?).
Qed.

Lemma entity_skel (σ σ' : state) (l : loc) :
  entity σ l → skel_at σ' l = skel_at σ l → entity σ' l.
Proof.
  intros (o & Ho & Hi)%entity_alt Hskel. apply entity_alt.
  unfold skel_at in Hskel. rewrite Ho in Hskel.
  destruct (heap σ' !! l) as [o'|]; [|done].
  exists o'. split; [done|]. simpl in Hskel.
  rewrite (skel_isinstance o o'); [done|congruence].
Qed.

Lemma mutation_entity (σ σ' : state) (l : loc) :
  mutation σ σ' → entity σ l → entity σ' l.
Proof.
  intros Hstep He. apply (entity_skel σ σ' l He).
  apply entity_alt in He as (o & Ho & _).
  assert (skel_at σ l = Some (skel o)) as Hk
    by (unfold skel_at; by rewrite Ho).
  rewrite Hk. by apply (mutation_skel_at σ σ').
Qed.

(** A state that differs from a well-formed one in the output alone is
    well-formed. *)
Lemma wf_heap (σ σ' : state) : heap σ' = heap σ → wf σ → wf σ'.
Proof.
  intros Hh [Hown Hitems Hshare]. split.
  - intros l o ll. unfold items_at. rewrite Hh. apply Hown.
  - intros ll xs. unfold items_at, entity, fields_at. rewrite Hh.
    apply Hitems.
  - intros l1 l2 o1 o2 ll. rewrite Hh. apply Hshare.
Qed.

Lemma owned_not_list (o : obj) (ll : loc) :
  owned_list o = Some ll → skel o ≠ SkList.
Proof. by destruct o. Qed.

Lemma items_at_Some (σ : state) (ll : loc) (xs : list loc) :
  items_at σ ll = Some xs ↔ heap σ !! ll = Some (PyList xs).
Proof.
  unfold items_at. destruct (heap σ !! ll) as [[]|]; split; congruence.
Qed.

Lemma mutation_wf (σ σ' : state) : mutation σ σ' → wf σ → wf σ'.
Proof.
  intros Hstep Hwf. pose proof Hwf as [Hown Hitems Hshare].
  pose proof (λ l, mutation_entity σ σ' l Hstep) as Hent.
  destruct Hstep as [Hh | l0 o o' Ho Hskel Hnl Hh | ll xs xs' Hxs Hsub Hh
                    | l0 o Hl0 Hi Hno Hh | l0 ll o Hll Hl0 Hne Hlo Hh].
  - by apply (wf_heap σ).
  - (* an attribute *)
    assert (∀ l, items_at σ' l = items_at σ l) as Hsame.
    { intros l. unfold items_at. rewrite Hh.
      destruct (decide (l0 = l)) as [->|]; [|by rewrite lookup_insert_ne].
      rewrite lookup_insert_eq, Ho. destruct o, o'; done. }
    assert (∀ l o1, heap σ' !! l = Some o1 →
              ∃ o2, heap σ !! l = Some o2 ∧ owned_list o1 = owned_list o2)
      as Hback.
    { intros l o1. rewrite Hh.
      destruct (decide (l0 = l)) as [->|].
      - rewrite lookup_insert_eq. intros [= <-]. exists o. split; [done|].
        by apply skel_owned_list.
      - rewrite lookup_insert_ne by done. eauto. }
    split.
    + intros l o1 ll0 (o2 & Ho2 & Heq)%Hback Hl. rewrite Hsame.
      eapply Hown; [done|congruence].
    + intros ll0 ys. rewrite Hsame. intros Hys.
      eapply Forall_impl; [|by eapply Hitems]. apply Hent.
    + intros l1 l2 o1 o2 ll0 (o1' & Ho1 & Heq1)%Hback (o2' & Ho2 & Heq2)%Hback
        H1 H2.
      apply (Hshare l1 l2 o1' o2' ll0); congruence.
  - (* the items of a list *)
    apply items_at_Some in Hxs.
    assert (∀ l o1, heap σ' !! l = Some o1 → is_Some (owned_list o1) →
              heap σ !! l = Some o1) as Hback.
    { intros l o1. rewrite Hh.
      destruct (decide (ll = l)) as [->|].
      - rewrite lookup_insert_eq. intros [= <-] [? ?]. done.
      - by rewrite lookup_insert_ne. }
    split.
    + intros l o1 ll0 Ho1 Hl.
      apply Hback in Ho1; [|by eauto].
      destruct (Hown l o1 ll0 Ho1 Hl) as [ys Hys].
      unfold items_at. rewrite Hh.
      destruct (decide (ll = ll0)) as [->|].
      * rewrite lookup_insert_eq. eauto.
      * rewrite lookup_insert_ne by done. apply items_at_Some in Hys.
        rewrite Hys. eauto.
    + intros ll0 ys Hys. apply items_at_Some in Hys. rewrite Hh in Hys.
      destruct (decide (ll = ll0)) as [->|].
      * rewrite lookup_insert_eq in Hys. injection Hys as ->.
        apply list.Forall_forall. intros x Hx. apply Hent.
        destruct (Hsub x Hx) as [Hin|]; [|done].
        pose proof (Hitems ll0 xs (proj2 (items_at_Some _ _ _) Hxs)) as Hall.
        by apply (proj1 (list.Forall_forall _ _) Hall).
      * rewrite lookup_insert_ne in Hys by done.
        eapply Forall_impl; [|apply (Hitems ll0 ys)].
        -- apply Hent.
        -- by apply items_at_Some.
    + intros l1 l2 o1 o2 ll0 Ho1 Ho2 H1 H2.
      apply Hback in Ho1; [|by eauto]. apply Hback in Ho2; [|by eauto].
      by apply (Hshare l1 l2 o1 o2 ll0).
  - (* a new instance *)
    assert (∀ l o1, heap σ' !! l = Some o1 → is_Some (owned_list o1) →
              heap σ !! l = Some o1) as Hback.
    { intros l o1. rewrite Hh.
      destruct (decide (l0 = l)) as [->|].
      - rewrite lookup_insert_eq. intros [= <-] [? ?]. congruence.
      - by rewrite lookup_insert_ne. }
    assert (∀ l ys, items_at σ' l = Some ys ↔ items_at σ l = Some ys)
      as Hsame.
    { intros l ys. rewrite !items_at_Some, Hh.
      destruct (decide (l0 = l)) as [->|]; [|by rewrite lookup_insert_ne].
      rewrite lookup_insert_eq, Hl0. split; [|done].
      intros [= ->]. done. }
    split.
    + intros l o1 ll0 Ho1 Hl.
      apply Hback in Ho1; [|by eauto].
      destruct (Hown l o1 ll0 Ho1 Hl) as [ys Hys].
      exists ys. by apply Hsame.
    + intros ll0 ys Hys%Hsame.
      eapply Forall_impl; [|by apply (Hitems ll0 ys)]. apply Hent.
    + intros l1 l2 o1 o2 ll0 Ho1 Ho2 H1 H2.
      apply Hback in Ho1; [|by eauto]. apply Hback in Ho2; [|by eauto].
      by apply (Hshare l1 l2 o1 o2 ll0).
  - (* a new manager or company, with its list *)
    assert (∀ l o1, heap σ' !! l = Some o1 → is_Some (owned_list o1) →
              l = l0 ∧ o1 = o ∨ l ≠ l0 ∧ heap σ !! l = Some o1) as Hback.
    { intros l o1. rewrite Hh.
      destruct (decide (l0 = l)) as [->|].
      - rewrite lookup_insert_eq. intros [= <-] _. by left.
      - rewrite lookup_insert_ne by done.
        destruct (decide (ll = l)) as [->|].
        + rewrite lookup_insert_eq. intros [= <-] [? ?]. done.
        + rewrite lookup_insert_ne by done. right. split; [done|]. done. }
    assert (∀ l ys, items_at σ l = Some ys → items_at σ' l = Some ys)
      as Hkeep.
    { intros l ys. rewrite !items_at_Some, Hh. intros Hl.
      rewrite !lookup_insert_ne; [done| |]; intros ->; congruence. }
    assert (∀ l o1, heap σ !! l = Some o1 → owned_list o1 ≠ Some ll)
      as Hunowned.
    { intros l o1 Ho1 Hl. destruct (Hown l o1 ll Ho1 Hl) as [ys Hys].
      apply items_at_Some in Hys. congruence. }
    split.
    + intros l o1 ll0 Ho1 Hl.
      destruct (Hback l o1 Ho1 (mk_is_Some _ _ Hl)) as [[-> ->]|[_ Ho1']].
      * assert (ll0 = ll) as -> by congruence.
        exists []. apply items_at_Some. rewrite Hh.
        by rewrite lookup_insert_ne, lookup_insert_eq.
      * destruct (Hown l o1 ll0 Ho1' Hl) as [ys Hys].
        exists ys. by apply Hkeep.
    + intros ll0 ys Hys. apply items_at_Some in Hys. rewrite Hh in Hys.
      destruct (decide (l0 = ll0)) as [->|].
      { rewrite lookup_insert_eq in Hys. injection Hys as ->. done. }
      rewrite lookup_insert_ne in Hys by done.
      destruct (decide (ll = ll0)) as [->|].
      { rewrite lookup_insert_eq in Hys. injection Hys as <-. constructor. }
      rewrite lookup_insert_ne in Hys by done.
      eapply Forall_impl; [|apply (Hitems ll0 ys)].
      * apply Hent.
      * by apply items_at_Some.
    + intros l1 l2 o1 o2 ll0 Ho1 Ho2 H1 H2.
      destruct (Hback l1 o1 Ho1 (mk_is_Some _ _ H1)) as [[-> ->]|[? Ho1']];
        destruct (Hback l2 o2 Ho2 (mk_is_Some _ _ H2)) as [[-> ->]|[? Ho2']];
        [done| | |].
      * exfalso. apply (Hunowned l2 o2 Ho2'). congruence.
      * exfalso. apply (Hunowned l1 o1 Ho1'). congruence.
      * by apply (Hshare l1 l2 o1 o2 ll0).
Qed.

Lemma evolves_wf (σ σ' : state) : evolves σ σ' → wf σ → wf σ'.
Proof. induction 1; eauto using mutation_wf. Qed.

(** The initial state is well-formed, and every operation keeps a
    well-formed state well-formed, whether it returns or raises. *)
Lemma wf_initial : wf initial.
Proof.
  split.
  - intros l o ll Hl. simpl in Hl. by rewrite lookup_empty in Hl.
  - intros ll xs Hl. unfold items_at in Hl. simpl in Hl.
    by rewrite lookup_empty in Hl.
  - intros l1 l2 o1 o2 ll Hl. simpl in Hl. by rewrite lookup_empty in Hl.
Qed.

Lemma wf_perform (c : call) (σ : state) :
  wf σ → wf (final_state (perform c σ)).
Proof. apply evolves_wf, orderly_perform. Qed.

Lemma wf_after (cs : list call) (σ : state) : wf σ → wf (after cs σ).
Proof. apply evolves_wf, evolves_after. Qed.

(** ** The identifier of an employee *)

Lemma id_at_skel (σ : state) (l : loc) : id_at σ l = skel_at σ l ≫= skel_id.
Proof.
  unfold id_at, skel_at, fields_at. by destruct (heap σ !! l) as [[]|].
Qed.

Lemma get_employee_id_run (σ : state) (l : loc) (i : Z) :
  get_employee_id l σ = Ok i σ ↔ id_at σ l = Some i.
Proof.
  unfold get_employee_id, id_at, fields_at. exec.
  destruct (heap σ !! l) as [o|]; simpl; [|done].
  destruct (base o) as [b|]; simpl; [|done].
  split; congruence.
Qed.

Lemma evolves_id_at (σ σ' : state) (l : loc) (i : Z) :
  evolves σ σ' → id_at σ l = Some i → id_at σ' l = Some i.
Proof.
  intros Hev. rewrite !id_at_skel.
  destruct (skel_at σ l) as [k|] eqn:Hk; [|done].
  by rewrite (evolves_skel_at σ σ' l k Hev Hk).
Qed.

Lemma constructed_id_at (i : Z) (l : loc) (σ : state) :
  constructed i l σ → id_at σ l = Some i.
Proof.
  intros (σ0 & n & s & [Hnew | [[d Hnew] | [r Hnew]]]).
  - unfold new_Employee in Hnew.
    destruct (new_instance_run (Employee (Fields i n s)) σ0) as (l' & Hrun & _).
    rewrite Hrun in Hnew. injection Hnew as <- <-.
    unfold id_at, fields_at. simpl. by rewrite lookup_insert_eq.
  - unfold new_Manager in Hnew.
    destruct (new_owner_run (Manager (Fields i n s) d) σ0)
      as (l' & ll & Hrun & _).
    rewrite Hrun in Hnew. injection Hnew as <- <-.
    unfold id_at, fields_at. simpl. by rewrite lookup_insert_eq.
  - unfold new_SalesPerson in Hnew.
    destruct (new_instance_run (SalesPerson (Fields i n s) r 0%float) σ0)
      as (l' & Hrun & _).
    rewrite Hrun in Hnew. injection Hnew as <- <-.
    unfold id_at, fields_at. simpl. by rewrite lookup_insert_eq.
Qed.

(** C2.  Let [l] be the instance of [Employee], [Manager] or [SalesPerson]
    that a constructor called with the identifier [i] has returned.  After
    every sequence of operations (constructor calls, method calls on any
    receiver with any arguments, and assignments to the public attributes),
    the empty sequence included, [l.get_employee_id()] returns [i] and
    changes nothing. *)
Theorem employee_id_never_changes (i : Z) (l : loc) (σ : state)
    (cs : list call) :
  constructed i l σ →
  get_employee_id l (after cs σ) = Ok i (after cs σ).
Proof.
  intros Hnew%constructed_id_at. apply get_employee_id_run.
  by apply (evolves_id_at σ); [apply evolves_after|].
Qed.

(** ** Reports and employees are separate lists *)

(** In a well-formed state, a change of the list of one keeper leaves the
    list of every other keeper as it is. *)
Lemma list_at_other (k : keeper) (σ σ' : state) (self other : loc)
    (xs ys zs : list loc) (o : obj) (ll : loc) :
  wf σ → list_at k σ self = Some xs → self ≠ other →
  heap σ !! other = Some o → owned_list o = Some ll →
  heap σ !! ll = Some (PyList ys) →
  heap σ' = <[ll := PyList zs]> (heap σ) →
  list_at k σ' self = Some xs.
Proof.
  intros Hwf (os & lls & Hos & Howns & Hlls & Hk)%list_at_Some Hne Ho Hown
    Hll Hh.
  assert (lls ≠ ll).
  { intros ->. apply Hne. by apply (wf_unshared σ Hwf self other os o ll). }
  assert (ll ≠ self).
  { intros ->. rewrite Hll in Hos. injection Hos as <-. by destruct k. }
  apply list_at_Some. exists os, lls. rewrite Hh.
  rewrite !lookup_insert_ne by done. done.
Qed.

Lemma list_at_heap (k : keeper) (σ σ' : state) (self : loc) :
  heap σ' = heap σ → list_at k σ' self = list_at k σ self.
Proof.
  intros Hh. destruct k; simpl; unfold reports_at, staff_at, items_at;
    by rewrite Hh.
Qed.

Lemma keepers_differ (σ : state) (m c : loc) (xs ys : list loc) :
  reports_at σ m = Some xs → staff_at σ c = Some ys → m ≠ c.
Proof.
  unfold reports_at, staff_at. intros Hm Hc ->.
  destruct (heap σ !! c) as [[]|]; done.
Qed.

(** In a well-formed state, the operations on the reports of a manager
    leave the employees of a company as they are, and conversely. *)
Lemma keepers_lists_separate (σ : state) (m c e : loc) (xs ys : list loc) :
  wf σ → reports_at σ m = Some xs → staff_at σ c = Some ys →
  staff_at (final_state (Manager_add_employee m e σ)) c = Some ys ∧
  staff_at (final_state (Manager_remove_employee m e σ)) c = Some ys ∧
  reports_at (final_state (Company_add_employee c e σ)) m = Some xs ∧
  reports_at (final_state (Company_remove_employee c e σ)) m = Some xs.
Proof.
  intros Hwf Hxs Hys.
  pose proof (keepers_differ σ m c xs ys Hxs Hys) as Hne.
  split_and!.
  - destruct (add_employee_effect AManager m e σ)
      as [Hsame|(o & ll & zs & Ho & Hown & Hll & _ & Hh)]; simpl in *.
    + rewrite <- Hys. apply (list_at_heap ACompany σ _ c Hsame).
    + by eapply (list_at_other ACompany σ _ c m ys zs).
  - destruct (remove_employee_effect AManager m e σ)
      as [Hsame|(o & ll & zs & Ho & Hown & Hll & Hh)]; simpl in *.
    + rewrite <- Hys. apply (list_at_heap ACompany σ _ c Hsame).
    + by eapply (list_at_other ACompany σ _ c m ys zs).
  - destruct (add_employee_effect ACompany c e σ)
      as [Hsame|(o & ll & zs & Ho & Hown & Hll & _ & Hh)]; simpl in *.
    + rewrite <- Hxs. apply (list_at_heap AManager σ _ m Hsame).
    + by eapply (list_at_other AManager σ _ m c xs zs).
  - destruct (remove_employee_effect ACompany c e σ)
      as [Hsame|(o & ll & zs & Ho & Hown & Hll & Hh)]; simpl in *.
    + rewrite <- Hxs. apply (list_at_heap AManager σ _ m Hsame).
    + by eapply (list_at_other AManager σ _ m c xs zs).
Qed.

(** In a well-formed state, the list of a manager or of a company holds
    instances of [Employee]. *)
Lemma wf_list_entities (k : keeper) (σ : state) (self : loc)
    (xs : list loc) :
  wf σ → list_at k σ self = Some xs → Forall (entity σ) xs.
Proof.
  intros Hwf (o & ll & _ & _ & Hll & _)%list_at_Some.
  apply (wf_items σ Hwf ll). by apply items_at_Some.
Qed.

(** C9.  In every state that a program reaches from its start, by any
    sequence of constructor calls, method calls and assignments to the
    attributes of the instances, the reports of a manager [m] and the
    employees of a company [c] are separate lists:
    [m.add_employee(e)] and [m.remove_employee(e)] leave the employees of
    [c] as they are, and [c.add_employee(e)] and [c.remove_employee(e)]
    leave the reports of [m] as they are, whatever [e] is and whatever
    entities the two lists hold. *)
Theorem reports_and_staff_independent (cs : list call) (m c e : loc)
    (xs ys : list loc) :
  reports_at (after cs initial) m = Some xs →
  staff_at (after cs initial) c = Some ys →
  staff_at (final_state (Manager_add_employee m e (after cs initial))) c
  = Some ys ∧
  staff_at (final_state (Manager_remove_employee m e (after cs initial))) c
  = Some ys ∧
  reports_at (final_state (Company_add_employee c e (after cs initial))) m
  = Some xs ∧
  reports_at (final_state (Company_remove_employee c e (after cs initial))) m
  = Some xs.
Proof. apply keepers_lists_separate, wf_after, wf_initial. Qed.


(** * Further properties *)

(** ** Queries and displays leave the heap alone *)

Lemma heap_stable_ret {A} (a : A) : heap_stable (mret a : M A).
Proof. by intros σ. Qed.

Lemma heap_stable_raise {A} (e : exn) : heap_stable (raise e : M A).
Proof. by intros σ. Qed.

Lemma heap_stable_bind {A B} (m : M A) (f : A → M B) :
  heap_stable m → (∀ a, heap_stable (f a)) → heap_stable (m ≫= f).
Proof.
  intros Hm Hf σ. rewrite final_state_bind. specialize (Hm σ).
  destruct (m σ) as [a σ'|e σ']; simpl in Hm; [|done].
  by rewrite Hf.
Qed.

Lemma heap_stable_deref (l : loc) : heap_stable (deref l).
Proof. intros σ. unfold deref. by destruct (heap σ !! l). Qed.

Lemma heap_stable_print (ln : line) : heap_stable (print ln).
Proof. by intros σ. Qed.

Lemma heap_stable_for_each (xs : list loc) (body : loc → M unit) :
  (∀ x, heap_stable (body x)) → heap_stable (for_each xs body).
Proof.
  intros Hbody. induction xs as [|x xs IH]; simpl.
  - apply heap_stable_ret.
  - apply heap_stable_bind; [apply Hbody|]. intros _. apply IH.
Qed.

Create HintDb stable.

#[local] Hint Resolve heap_stable_ret heap_stable_raise heap_stable_deref
  heap_stable_print : stable.

Ltac stable_step :=
  first
    [ solve [auto with stable nocore]
    | apply heap_stable_bind; [|intros ?]
    | apply heap_stable_for_each; intros ?
    | match goal with
      | |- heap_stable (match ?x with _ => _ end) => destruct x
      end ].

Ltac prove_stable := repeat stable_step.

Lemma heap_stable_get_base (l : loc) : heap_stable (get_base l).
Proof. unfold get_base. prove_stable. Qed.

Lemma heap_stable_get_name (l : loc) : heap_stable (get_name l).
Proof. unfold get_name. prove_stable. Qed.

Lemma heap_stable_get_items (l : loc) : heap_stable (get_items l).
Proof. unfold get_items. prove_stable. Qed.

Lemma heap_stable_get_employees (l : loc) : heap_stable (get_employees l).
Proof. unfold get_employees. prove_stable. Qed.

Lemma heap_stable_get_department (l : loc) : heap_stable (get_department l).
Proof. unfold get_department. prove_stable. Qed.

Lemma heap_stable_get_commission_rate (l : loc) :
  heap_stable (get_commission_rate l).
Proof. unfold get_commission_rate. prove_stable. Qed.

Lemma heap_stable_get_sales_achieved (l : loc) :
  heap_stable (get_sales_achieved l).
Proof. unfold get_sales_achieved. prove_stable. Qed.

#[local] Hint Resolve heap_stable_get_base heap_stable_get_name
  heap_stable_get_items heap_stable_get_employees heap_stable_get_department
  heap_stable_get_commission_rate heap_stable_get_sales_achieved : stable.

Lemma heap_stable_list_contains (ll x : loc) :
  heap_stable (list_contains ll x).
Proof. unfold list_contains. prove_stable. Qed.

Lemma heap_stable_get_employee_id (l : loc) : heap_stable (get_employee_id l).
Proof. unfold get_employee_id. prove_stable. Qed.

Lemma heap_stable_calculate_commission (l : loc) :
  heap_stable (calculate_commission l).
Proof. unfold calculate_commission. prove_stable. Qed.

Lemma heap_stable_Employee_display_details (l : loc) :
  heap_stable (Employee_display_details l).
Proof. unfold Employee_display_details. prove_stable. Qed.

#[local] Hint Resolve heap_stable_list_contains heap_stable_get_employee_id
  heap_stable_calculate_commission heap_stable_Employee_display_details
  : stable.

Lemma heap_stable_SalesPerson_display_details (l : loc) :
  heap_stable (SalesPerson_display_details l).
Proof. unfold SalesPerson_display_details. prove_stable. Qed.

Lemma heap_stable_Manager_display_details (l : loc) :
  heap_stable (Manager_display_details l).
Proof. unfold Manager_display_details. prove_stable. Qed.

#[local] Hint Resolve heap_stable_SalesPerson_display_details
  heap_stable_Manager_display_details : stable.

Lemma heap_stable_display_details (l : loc) : heap_stable (display_details l).
Proof. unfold display_details. prove_stable. Qed.

#[local] Hint Resolve heap_stable_display_details : stable.

Lemma heap_stable_Company_display_all_employees (l : loc) :
  heap_stable (Company_display_all_employees l).
Proof. unfold Company_display_all_employees. prove_stable. Qed.

Lemma heap_stable_scan_by_id (i : Z) (xs : list loc) :
  heap_stable (scan_by_id i xs).
Proof. induction xs as [|x xs IH]; simpl; prove_stable. Qed.

Lemma heap_stable_add_salaries (xs : list loc) :
  ∀ acc, heap_stable (add_salaries acc xs).
Proof. induction xs as [|x xs IH]; intros acc; simpl; prove_stable. Qed.

#[local] Hint Resolve heap_stable_scan_by_id heap_stable_add_salaries : stable.

Lemma heap_stable_Company_get_employee_by_id (l : loc) (i : Z) :
  heap_stable (Company_get_employee_by_id l i).
Proof. unfold Company_get_employee_by_id. prove_stable. Qed.

Lemma heap_stable_Company_calculate_total_salary (l : loc) :
  heap_stable (Company_calculate_total_salary l).
Proof. unfold Company_calculate_total_salary. prove_stable. Qed.

#[local] Hint Resolve heap_stable_Company_display_all_employees
  heap_stable_Company_get_employee_by_id
  heap_stable_Company_calculate_total_salary : stable.

(** X1.  The methods that query or display never change an object nor a
    list, whatever object they are called on and whether they return or
    raise: [get_employee_id], [display_details] of the three classes,
    [calculate_commission], [display_all_employees], [get_employee_by_id]
    and [calculate_total_salary]. *)
Theorem queries_leave_the_heap (l : loc) (i : Z) (σ : state) :
  heap (final_state (get_employee_id l σ)) = heap σ ∧
  heap (final_state (display_details l σ)) = heap σ ∧
  heap (final_state (Employee_display_details l σ)) = heap σ ∧
  heap (final_state (Manager_display_details l σ)) = heap σ ∧
  heap (final_state (SalesPerson_display_details l σ)) = heap σ ∧
  heap (final_state (calculate_commission l σ)) = heap σ ∧
  heap (final_state (Company_display_all_employees l σ)) = heap σ ∧
  heap (final_state (Company_get_employee_by_id l i σ)) = heap σ ∧
  heap (final_state (Company_calculate_total_salary l σ)) = heap σ.
Proof.
  split_and!.
  - apply heap_stable_get_employee_id.
  - apply heap_stable_display_details.
  - apply heap_stable_Employee_display_details.
  - apply heap_stable_Manager_display_details.
  - apply heap_stable_SalesPerson_display_details.
  - apply heap_stable_calculate_commission.
  - apply heap_stable_Company_display_all_employees.
  - apply heap_stable_Company_get_employee_by_id.
  - apply heap_stable_Company_calculate_total_salary.
Qed.

(** ** What the displays print *)

Lemma details_heap (σ σ' : state) (l : loc) :
  heap σ' = heap σ → details σ' l = details σ l.
Proof. intros Hh. unfold details, items_at, name_at. by rewrite Hh. Qed.

Lemma named_alt (σ : state) (l : loc) :
  named σ l ↔ ∃ o, heap σ !! l = Some o ∧ skel o ≠ SkList.
Proof.
  split.
  - intros [(o & Ho & Hi)%entity_alt | (n & ll & Ho)].
    + exists o. split; [done|]. by destruct o.
    + eexists. split; [done|]. done.
  - intros (o & Ho & Hnl). destruct o as [b|b d ll|b r s|n ll|xs].
    + left. apply entity_alt. eauto.
    + left. apply entity_alt. eauto.
    + left. apply entity_alt. eauto.
    + right. by exists n, ll.
    + done.
Qed.

Lemma get_name_run (σ : state) (l : loc) :
  named σ l → get_name l σ = Ok (name_at σ l) σ.
Proof.
  intros (o & Ho & Hnl)%named_alt. unfold name_at. exec.
  by destruct o.
Qed.

Lemma report_names_run (h : gmap loc obj) (xs : list loc) :
  Forall (named (State h [])) xs →
  ∀ out,
    for_each xs (λ employee,
      n ← get_name employee;
      print [Lit "- "; Lit n]) (State h out)
    = Ok () (State h (out ++ map (λ e, [Lit "- "; Lit (name_at (State h []) e)])
                               xs)).
Proof.
  induction 1 as [|x xs Hx _ IH]; intros out; simpl.
  - by rewrite app_nil_r.
  - rewrite !run_bind.
    rewrite (get_name_run (State h out) x)
      by (destruct Hx as [[b Hb]|Hc]; [left; by exists b|by right]).
    change (name_at (State h out) x) with (name_at (State h []) x).
    unfold print. cbn [heap stdout]. rewrite IH, <- app_assoc. done.
Qed.

Lemma Employee_display_details_run (σ : state) (l : loc) (b : fields) :
  fields_at σ l = Some b →
  Employee_display_details l σ
  = Ok () (State (heap σ) (stdout σ ++ [base_line b])).
Proof.
  intros Hb. unfold Employee_display_details.
  by rewrite run_bind, (get_base_run σ l b Hb).
Qed.

Lemma entity_named (σ : state) (l : loc) : entity σ l → named σ l.
Proof. by left. Qed.

Lemma get_department_run (h : gmap loc obj) (out : list line) (l : loc)
    (b : fields) (d : string) (ll : loc) :
  h !! l = Some (Manager b d ll) →
  get_department l (State h out) = Ok d (State h out).
Proof. intros Hl. by exec. Qed.

Lemma get_employees_run (h : gmap loc obj) (out : list line) (l : loc)
    (o : obj) (ll : loc) :
  h !! l = Some o → owned_list o = Some ll →
  get_employees l (State h out) = Ok ll (State h out).
Proof. intros Hl Hown. exec. by destruct o; simplify_eq/=. Qed.

Lemma get_items_run (h : gmap loc obj) (out : list line) (ll : loc)
    (xs : list loc) :
  h !! ll = Some (PyList xs) →
  get_items ll (State h out) = Ok xs (State h out).
Proof. intros Hl. by exec. Qed.

Lemma print_run (h : gmap loc obj) (out : list line) (ln : line) :
  print ln (State h out) = Ok () (State h (out ++ [ln])).
Proof. done. Qed.

(** In a well-formed state [display_details] returns, and prints
    [details]. *)
Lemma display_details_run (σ : state) (l : loc) :
  wf σ → entity σ l →
  display_details l σ = Ok () (State (heap σ) (stdout σ ++ details σ l)).
Proof.
  intros Hwf (o & Ho & Hi)%entity_alt.
  unfold display_details, details. rewrite run_bind. unfold deref at 1.
  rewrite Ho. destruct o as [b|b d ll|b r s| |]; try done.
  - apply Employee_display_details_run. unfold fields_at. by rewrite Ho.
  - destruct (wf_owned σ Hwf l _ ll Ho eq_refl) as [xs Hxs].
    pose proof (wf_items σ Hwf ll xs Hxs) as Hent.
    rewrite Hxs. apply items_at_Some in Hxs.
    unfold Manager_display_details.
    rewrite run_bind, (Employee_display_details_run σ l b)
      by (unfold fields_at; by rewrite Ho).
    rewrite run_bind, (get_department_run _ _ l b d ll Ho).
    rewrite run_bind, print_run.
    rewrite run_bind, (get_employees_run _ _ l _ ll Ho eq_refl).
    rewrite run_bind, (get_items_run _ _ ll xs Hxs).
    destruct xs as [|x xs].
    + rewrite print_run, <- !app_assoc. done.
    + rewrite run_bind, print_run.
      rewrite (report_names_run (heap σ) (x :: xs)).
      * rewrite <- !app_assoc. done.
      * eapply Forall_impl; [|exact Hent]. intros y [b0 Hy]. left.
        by exists b0.
  - unfold SalesPerson_display_details.
    rewrite run_bind, (Employee_display_details_run σ l b)
      by (unfold fields_at; by rewrite Ho).
    exec. cbn [heap stdout]. rewrite <- !app_assoc. done.
Qed.

Lemma entity_heap (σ σ' : state) (l : loc) :
  heap σ' = heap σ → entity σ l → entity σ' l.
Proof. intros Hh. unfold entity, fields_at. by rewrite Hh. Qed.

Lemma display_details_each (h : gmap loc obj) (es : list loc) :
  wf (State h []) → Forall (entity (State h [])) es →
  ∀ out,
    for_each es display_details (State h out)
    = Ok () (State h (out ++ concat (map (details (State h [])) es))).
Proof.
  intros Hwf. induction 1 as [|e es He _ IH]; intros out; simpl.
  - by rewrite app_nil_r.
  - rewrite run_bind, (display_details_run (State h out) e).
    + cbn [heap stdout]. rewrite IH, <- app_assoc.
      by rewrite (details_heap (State h []) (State h out) e eq_refl).
    + by apply (wf_heap (State h [])).
    + by apply (entity_heap (State h [])).
Qed.

(** X2.  In a well-formed state, [display_details()] on an instance of
    [Employee], [Manager] or [SalesPerson] returns normally, changes no
    object, and prints the lines [details]: for every class the line of the
    base class first; then, for a manager, the department and either the
    names of the reports in the order of the list, under a heading, or the
    line that says there are none; for a sales person, the commission
    rate and the sales. *)
Theorem display_details_output (σ : state) (l : loc) (b : fields) :
  wf σ → fields_at σ l = Some b →
  display_details l σ = Ok () (State (heap σ) (stdout σ ++ details σ l)) ∧
  (∃ rest, details σ l = base_line b :: rest) ∧
  (∀ xs, reports_at σ l = Some xs →
     length (details σ l) = match xs with [] => 3 | _ => 3 + length xs end).
Proof.
  intros Hwf Hb. split_and!.
  - apply display_details_run; [done|]. by exists b.
  - apply fields_at_Some in Hb as (o & Ho & Hb). unfold details. rewrite Ho.
    destruct o; simplify_eq/=; eauto.
  - intros xs (o & ll & Ho & _ & Hll & (bm & d & ->))%(list_at_Some AManager).
    unfold details. rewrite Ho.
    rewrite (proj2 (items_at_Some σ ll xs) Hll).
    destruct xs; simpl; [done|]. by rewrite length_map.
Qed.

Lemma display_all_employees_run (σ : state) (c : loc) (n : string)
    (ll : loc) (es : list loc) :
  wf σ → heap σ !! c = Some (Company n ll) → staff_at σ c = Some es →
  Company_display_all_employees c σ
  = Ok () (State (heap σ) (stdout σ ++ all_details σ n es)).
Proof.
  intros Hwf Hc Hes.
  pose proof (wf_list_entities ACompany σ c es Hwf Hes) as Hent.
  unfold staff_at in Hes. rewrite Hc in Hes. apply items_at_Some in Hes.
  unfold Company_display_all_employees, all_details. destruct σ as [h out].
  simpl in *.
  rewrite run_bind, (get_name_run (State h out) c) by (right; by exists n, ll).
  unfold name_at. cbn [heap]. rewrite Hc. cbn [from_option keeper_name].
  rewrite run_bind, print_run.
  rewrite run_bind, (get_employees_run _ _ c _ ll Hc eq_refl).
  rewrite run_bind, (get_items_run _ _ ll es Hes).
  rewrite run_bind, (display_details_each h es).
  - rewrite print_run, <- !app_assoc. done.
  - by apply (wf_heap (State h out)).
  - eapply Forall_impl; [|exact Hent]. intros e.
    by apply (entity_heap (State h out)).
Qed.

(** X3.  In a well-formed state, [display_all_employees()] on a company
    returns normally, changes no object, and prints a heading with the name
    of the company, then the lines of [display_details()] of each employee
    in the order of the list, each resolved on the class of the employee,
    then the closing line. *)
Theorem display_all_employees_output (σ : state) (c : loc) (n : string)
    (ll : loc) (es : list loc) :
  wf σ → heap σ !! c = Some (Company n ll) → staff_at σ c = Some es →
  Company_display_all_employees c σ
  = Ok () (State (heap σ) (stdout σ ++ all_details σ n es)).
Proof. apply display_all_employees_run. Qed.

(** ** Adding and removing, in full *)

Lemma list_at_keeper (k : keeper) (σ : state) (self : loc) (xs : list loc) :
  list_at k σ self = Some xs →
  ∃ o ll, heap σ !! self = Some o ∧ owned_list o = Some ll ∧
          heap σ !! ll = Some (PyList xs) ∧ ll ≠ self ∧
          match k with
          | AManager => ∃ b d, o = Manager b d ll
          | ACompany => ∃ n, o = Company n ll
          end.
Proof.
  intros (o & ll & Ho & Hown & Hll & Hk)%list_at_Some.
  exists o, ll. split_and!; try done.
  intros ->. destruct k; [destruct Hk as (? & ? & ->)|destruct Hk as (? & ->)];
    rewrite Hll in Ho; discriminate.
Qed.

Lemma add_employee_invalid_run (k : keeper) (σ : state) (self x : loc)
    (xs : list loc) (ox : obj) :
  list_at k σ self = Some xs →
  heap σ !! x = Some ox → isinstance_Employee ox = false →
  add_employee k self x σ
  = Ok () (State (heap σ) (stdout σ ++ [invalid_line k (name_at σ self)])).
Proof.
  intros (o & ll & Ho & Hown & Hll & Hne & Hk)%list_at_keeper Hx Hi.
  unfold name_at. rewrite Ho.
  destruct k; simpl;
    [destruct Hk as (b & d & ->)|destruct Hk as (n & ->)];
    unfold Manager_add_employee, Company_add_employee; exec; rewrite Hi;
    by exec.
Qed.

(** X4.  [add_employee] tests its argument with [isinstance]: called with
    an object that is not an instance of [Employee], a company or a list
    for instance, it returns normally, changes nothing in the heap, and
    prints the line that says the object is invalid. *)
Theorem add_employee_rejects (k : keeper) (σ : state) (self x : loc)
    (xs : list loc) (ox : obj) :
  list_at k σ self = Some xs →
  heap σ !! x = Some ox → isinstance_Employee ox = false →
  add_employee k self x σ
  = Ok () (State (heap σ) (stdout σ ++ [invalid_line k (name_at σ self)])).
Proof. apply add_employee_invalid_run. Qed.


Lemma add_employee_exact (k : keeper) (σ : state) (self e : loc)
    (xs : list loc) (be : fields) :
  list_at k σ self = Some xs → fields_at σ e = Some be →
  ∃ o ll, heap σ !! self = Some o ∧ owned_list o = Some ll ∧
    heap σ !! ll = Some (PyList xs) ∧
    add_employee k self e σ
    = Ok () (State (<[ll := PyList (xs ++ [e])]> (heap σ))
                   (stdout σ ++ [added_line k (name be) (name_at σ self)])).
Proof.
  intros (o & ll & Ho & Hown & Hll & Hne & Hk)%list_at_keeper
         (oe & He & Hb)%fields_at_Some.
  assert (ll ≠ e) by (intros ->; rewrite Hll in He; by simplify_eq).
  exists o, ll. split_and!; try done. unfold name_at. rewrite Ho.
  destruct k; simpl;
    [destruct Hk as (b & d & ->)|destruct Hk as (n & ->)];
    unfold Manager_add_employee, Company_add_employee;
    destruct oe; simplify_eq/=; by exec.
Qed.

Lemma remove_employee_exact (k : keeper) (σ : state) (self e : loc)
    (xs : list loc) (be : fields) :
  list_at k σ self = Some xs → fields_at σ e = Some be → e ∈ xs →
  ∃ o ll, heap σ !! self = Some o ∧ owned_list o = Some ll ∧
    heap σ !! ll = Some (PyList xs) ∧
    remove_employee k self e σ
    = Ok () (State (<[ll := PyList (remove_first e xs)]> (heap σ))
                   (stdout σ ++ [removed_line k (name be) (name_at σ self)])).
Proof.
  intros (o & ll & Ho & Hown & Hll & Hne & Hk)%list_at_keeper
         (oe & He & Hb)%fields_at_Some Hin%contains_true.
  assert (ll ≠ e) by (intros ->; rewrite Hll in He; by simplify_eq).
  exists o, ll. split_and!; try done. unfold name_at. rewrite Ho.
  destruct k; simpl;
    [destruct Hk as (b & d & ->)|destruct Hk as (n & ->)];
    unfold Manager_remove_employee, Company_remove_employee;
    destruct oe; simplify_eq/=; exec; rewrite Hin; exec; rewrite ?Hin;
    by exec.
Qed.

Lemma occurrences_remove_first (e x : loc) (xs : list loc) :
  occurrences x (remove_first e xs)
  = if decide (x = e) then pred (occurrences e xs) else occurrences x xs.
Proof.
  induction xs as [|y ys IH]; simpl.
  - by destruct (decide (x = e)).
  - destruct (decide (y = e)) as [->|Hne]; simpl.
    + destruct (decide (x = e)); destruct (decide (e = x));
        subst; simpl; try congruence; lia.
    + rewrite IH.
      destruct (decide (x = e)); destruct (decide (y = e));
        destruct (decide (y = x)); subst; simpl; try congruence; lia.
Qed.

Lemma length_remove_first (e : loc) (xs : list loc) :
  e ∈ xs → length (remove_first e xs) = pred (length xs).
Proof.
  induction xs as [|y ys IH]; [by intros ?%elem_of_nil|].
  intros Hin. simpl. destruct (decide (y = e)); [done|]. simpl.
  apply elem_of_cons in Hin as [->|Hin]; [done|].
  rewrite IH by done. destruct ys; [by apply elem_of_nil in Hin|done].
Qed.

(** X6.  [add_employee] looks for no duplicate, in a manager as in a
    company: for every instance [e] of [Employee], listed already or not,
    and even when [e] is the receiver itself, it returns normally, puts [e]
    at the end of the list, and prints the line that says so.  The number
    of occurrences of [e] grows by one.  The one object of the heap that
    changes is the list object that the attribute [employees] of the
    receiver refers to: every other object, and so every attribute of every
    instance of the four classes, is what it was, and no object is
    created. *)
Theorem add_employee_appends (k : keeper) (σ : state) (self e : loc)
    (xs : list loc) (be : fields) :
  list_at k σ self = Some xs → fields_at σ e = Some be →
  ∃ σ' o ll, add_employee k self e σ = Ok () σ' ∧
    list_at k σ' self = Some (xs ++ [e]) ∧
    occurrences e (xs ++ [e]) = S (occurrences e xs) ∧
    stdout σ' = stdout σ ++ [added_line k (name be) (name_at σ self)] ∧
    heap σ !! self = Some o ∧ owned_list o = Some ll ∧
    heap σ !! ll = Some (PyList xs) ∧
    heap σ' = <[ll := PyList (xs ++ [e])]> (heap σ) ∧
    (∀ l, l ≠ ll → heap σ' !! l = heap σ !! l) ∧
    (∀ l o', heap σ !! l = Some o' → (∀ ys, o' ≠ PyList ys) →
       heap σ' !! l = Some o') ∧
    (∀ l, fields_at σ' l = fields_at σ l) ∧
    (∀ l, commission_rate_at σ' l = commission_rate_at σ l).
Proof.
  intros Hxs Hbe.
  destruct (add_employee_exact k σ self e xs be Hxs Hbe)
    as (o & ll & Ho & Hown & Hll & ->).
  eexists _, o, ll. split; [done|]. split_and!; try done.
  - by apply (list_at_update k σ self ll xs _ _ o).
  - apply occurrences_snoc.
  - intros l Hl. simpl. by rewrite lookup_insert_ne.
  - intros l o' Hl Hnolist. simpl.
    destruct (decide (ll = l)) as [<-|]; [|by rewrite lookup_insert_ne].
    rewrite Hll in Hl. injection Hl as <-. by destruct (Hnolist xs).
  - intros l. by apply (fields_at_list_update σ ll l xs).
  - intros l. unfold commission_rate_at. simpl.
    destruct (decide (ll = l)) as [<-|];
      [by rewrite lookup_insert_eq, Hll|by rewrite lookup_insert_ne].
Qed.

(** X7.  When [e] is in the list, [remove_employee(e)] removes one
    occurrence and no more: the number of occurrences of [e] and the length
    of the list go down by one, and every other entity occurs as often as
    before.  An entity that was added twice is still listed after one
    removal. *)
Theorem remove_employee_once (k : keeper) (σ : state) (self e : loc)
    (xs : list loc) (be : fields) :
  list_at k σ self = Some xs → fields_at σ e = Some be → e ∈ xs →
  ∃ σ' xs', remove_employee k self e σ = Ok () σ' ∧
    list_at k σ' self = Some xs' ∧
    occurrences e xs' = pred (occurrences e xs) ∧
    (∀ x, x ≠ e → occurrences x xs' = occurrences x xs) ∧
    length xs' = pred (length xs) ∧
    (2 ≤ occurrences e xs → e ∈ xs') ∧
    stdout σ' = stdout σ ++ [removed_line k (name be) (name_at σ self)].
Proof.
  intros Hxs Hbe Hin.
  destruct (remove_employee_exact k σ self e xs be Hxs Hbe Hin)
    as (o & ll & Ho & Hown & Hll & ->).
  eexists _, (remove_first e xs). split; [done|]. split_and!.
  - by apply (list_at_update k σ self ll xs _ _ o).
  - by rewrite occurrences_remove_first, decide_True.
  - intros x Hx. by rewrite occurrences_remove_first, decide_False.
  - by apply length_remove_first.
  - intros Htwo. destruct (decide (e ∈ remove_first e xs)) as [|Hout]; [done|].
    apply occurrences_zero in Hout.
    rewrite occurrences_remove_first, decide_True in Hout by done. lia.
  - done.
Qed.

(** ** The total of the salaries, after an addition and after a removal *)

(** X8.  [calculate_total_salary()] follows the list of the company.
    Adding an instance of [Employee], listed already or not, makes the
    total the floating-point sum of the total before and of its salary.
    Removing again an instance that was not listed before it was added
    gives back the list, and with it the total, of before. *)
Theorem total_salary_after_add_and_remove (σ : state) (c e : loc)
    (es : list loc) (s : float) :
  staff_at σ c = Some es → Forall (entity σ) es → salary_at σ e = Some s →
  ∃ t σ', Company_calculate_total_salary c σ = Ok t σ ∧
    Company_add_employee c e σ = Ok () σ' ∧
    staff_at σ' c = Some (es ++ [e]) ∧
    Company_calculate_total_salary c σ' = Ok (t + s)%float σ' ∧
    (e ∉ es →
     ∃ σ'', Company_remove_employee c e σ' = Ok () σ'' ∧
            staff_at σ'' c = Some es ∧
            Company_calculate_total_salary c σ'' = Ok t σ'').
Proof.
  intros Hes Hent Hs.
  destruct (entities_salaries σ es Hent) as [ss Hss].
  pose proof Hs as (be & Hbe & _)%salary_at_Some.
  destruct (add_employee_exact ACompany σ c e es be Hes Hbe)
    as (o & ll & Ho & Hown & Hll & Hadd).
  change (add_employee ACompany c e σ) with (Company_add_employee c e σ)
    in Hadd.
  remember (State (<[ll := PyList (es ++ [e])]> (heap σ))
              (stdout σ ++ [added_line ACompany (name be) (name_at σ c)]))
    as σ' eqn:Hσ'.
  assert (staff_at σ' c = Some (es ++ [e])) as Hes'.
  { rewrite Hσ'. by apply (list_at_update ACompany σ c ll es _ _ o). }
  assert (∀ x, salary_at σ' x = salary_at σ x) as Hsal.
  { intros x. rewrite Hσ'. by apply (salary_at_list_update σ ll x es). }
  exists (total ss), σ'. split_and!; try done.
  - by apply (total_salary_run σ c es).
  - rewrite <- total_snoc.
    apply (total_salary_run σ' c (es ++ [e])); [done|].
    apply Forall2_app.
    + eapply Forall2_impl; [|exact Hss]. intros x y Hxy. simpl.
      by rewrite Hsal.
    + constructor; [|constructor]. by rewrite Hsal.
  - intros Hout.
    assert (fields_at σ' e = Some be) as Hbe'.
    { rewrite Hσ'. by rewrite (fields_at_list_update σ ll e es). }
    assert (e ∈ es ++ [e]) as Hin by (apply elem_of_app; right; left).
    destruct (remove_employee_exact ACompany σ' c e (es ++ [e]) be Hes' Hbe'
                Hin)
      as (o' & ll' & Ho' & Hown' & Hll' & Hremove).
    change (remove_employee ACompany c e σ')
      with (Company_remove_employee c e σ') in Hremove.
    rewrite Hremove.
    rewrite (remove_first_middle e es []) in * by done.
    rewrite app_nil_r in *. eexists. split; [done|].
    assert (staff_at
              (State (<[ll' := PyList es]> (heap σ'))
                 (stdout σ' ++
                  [removed_line ACompany (name be) (name_at σ' c)])) c
            = Some es) as Hes''.
    { by apply (list_at_update ACompany σ' c ll' (es ++ [e]) _ _ o'). }
    split; [done|].
    apply (total_salary_run _ c es); [done|].
    eapply Forall2_impl; [|exact Hss]. intros x y Hxy. simpl.
    by rewrite (salary_at_list_update σ' ll' x (es ++ [e])), Hsal.
Qed.

(** ** New objects *)

Lemma new_owner_frame (h : gmap loc obj) (l ll : loc) (o : obj) (l' : loc)
    (o' : obj) :
  h !! ll = None → h !! l = None → h !! l' = Some o' →
  <[l := o]> (<[ll := PyList []]> h) !! l' = Some o'.
Proof.
  intros Hll Hl Hl'.
  rewrite !lookup_insert_ne; [done| |]; intros ->; congruence.
Qed.

(** X9.  [Company(name)] returns a new object, prints nothing and leaves
    every existing object as it is.  The new company has its own empty
    list: its total salary is 0, [get_employee_by_id] returns [None] for
    every identifier, and [display_all_employees] prints the heading and
    the closing line alone. *)
Theorem new_Company_is_empty (σ : state) (n : string) :
  ∃ c σ', new_Company n σ = Ok c σ' ∧
    heap σ !! c = None ∧
    stdout σ' = stdout σ ∧
    (∀ l o, heap σ !! l = Some o → heap σ' !! l = Some o) ∧
    staff_at σ' c = Some [] ∧
    Company_calculate_total_salary c σ' = Ok 0%float σ' ∧
    (∀ i, Company_get_employee_by_id c i σ' = Ok None σ') ∧
    Company_display_all_employees c σ'
    = Ok () (State (heap σ')
               (stdout σ' ++ [[Lit "--- All Employees of "; Lit n;
                               Lit " ---"];
                              [Lit "------------------------"]])).
Proof.
  unfold new_Company.
  destruct (new_owner_run (Company n) σ) as (c & ll & -> & Hll & Hc & Hne).
  eexists c, _. split; [done|]. simpl.
  assert (<[c := Company n ll]> (<[ll := PyList []]> (heap σ)) !! c
          = Some (Company n ll)) as Hc' by apply lookup_insert_eq.
  assert (<[c := Company n ll]> (<[ll := PyList []]> (heap σ)) !! ll
          = Some (PyList [])) as Hll'
    by (by rewrite lookup_insert_ne, lookup_insert_eq).
  split_and!; try done.
  - intros l o Hl. by apply new_owner_frame.
  - unfold staff_at, items_at. simpl. by rewrite Hc', Hll'.
  - unfold Company_calculate_total_salary.
    rewrite run_bind, (get_employees_run _ _ c _ ll Hc' eq_refl).
    by rewrite run_bind, (get_items_run _ _ ll [] Hll').
  - intros i. unfold Company_get_employee_by_id.
    rewrite run_bind, (get_employees_run _ _ c _ ll Hc' eq_refl).
    by rewrite run_bind, (get_items_run _ _ ll [] Hll').
  - unfold Company_display_all_employees.
    rewrite run_bind, (get_name_run _ c) by (right; by exists n, ll).
    unfold name_at. cbn [heap]. rewrite Hc'. cbn [from_option keeper_name].
    rewrite run_bind, print_run.
    rewrite run_bind, (get_employees_run _ _ c _ ll Hc' eq_refl).
    rewrite run_bind, (get_items_run _ _ ll [] Hll').
    rewrite run_bind. cbn [for_each]. unfold mret, M_ret.
    rewrite print_run, <- app_assoc. done.
Qed.

(** X10.  [Manager(id, name, salary, department)] returns a new object,
    prints nothing and leaves every existing object as it is.  The new
    manager has the attributes it was given and its own empty list of
    reports: [display_details] describes it with the line that says it has
    no direct reports, and a raise that includes its reports is a raise of
    the manager alone. *)
Theorem new_Manager_has_no_reports (σ : state) (i : Z) (n : string)
    (s : float) (d : string) :
  ∃ m σ', new_Manager i n s d σ = Ok m σ' ∧
    heap σ !! m = None ∧
    stdout σ' = stdout σ ∧
    (∀ l o, heap σ !! l = Some o → heap σ' !! l = Some o) ∧
    fields_at σ' m = Some (Fields i n s) ∧
    reports_at σ' m = Some [] ∧
    details σ' m
    = [base_line (Fields i n s); [Lit "Department: "; Lit d];
       [Lit "No direct reports."]] ∧
    (∀ amount, Manager_give_raise m amount true σ'
               = Employee_give_raise m amount σ').
Proof.
  unfold new_Manager.
  destruct (new_owner_run (Manager (Fields i n s) d) σ)
    as (m & ll & -> & Hll & Hm & Hne).
  eexists m, _. split; [done|]. simpl.
  set (h' := <[m := Manager (Fields i n s) d ll]>
               (<[ll := PyList []]> (heap σ))).
  assert (h' !! m = Some (Manager (Fields i n s) d ll)) as Hm'
    by apply lookup_insert_eq.
  assert (h' !! ll = Some (PyList [])) as Hll'
    by (unfold h'; by rewrite lookup_insert_ne, lookup_insert_eq).
  assert (reports_at (State h' (stdout σ)) m = Some []) as Hreports.
  { unfold reports_at, items_at. simpl. by rewrite Hm', Hll'. }
  split_and!; try done.
  - intros l o Hl. by apply new_owner_frame.
  - unfold fields_at. simpl. by rewrite Hm'.
  - unfold details, items_at. simpl. by rewrite Hm', Hll'.
  - intros amount.
    rewrite (Manager_give_raise_steps _ m [] amount Hreports).
    rewrite run_bind. simpl.
    by destruct (Employee_give_raise m amount _) as [[]|].
Qed.

(** ** Adding an employee, then looking it up *)

Lemma first_with_id_app (σ : state) (i : Z) (es es' : list loc) :
  first_with_id σ i (es ++ es')
  = match first_with_id σ i es with
    | Some e => Some e
    | None => first_with_id σ i es'
    end.
Proof.
  induction es as [|x es IH]; simpl; [done|].
  by destruct (decide (id_at σ x = Some i)).
Qed.

Lemma id_at_list_update (σ : state) (ll l : loc) (xs xs' : list loc)
    (out : list line) :
  heap σ !! ll = Some (PyList xs) →
  id_at (State (<[ll := PyList xs']> (heap σ)) out) l = id_at σ l.
Proof.
  intros Hll. unfold id_at. by rewrite (fields_at_list_update σ ll l xs).
Qed.

Lemma first_with_id_ext (σ σ' : state) (i : Z) (es : list loc) :
  (∀ l, id_at σ' l = id_at σ l) →
  first_with_id σ' i es = first_with_id σ i es.
Proof.
  intros Hid. induction es as [|x es IH]; simpl; [done|].
  rewrite Hid, IH. done.
Qed.

(** X11.  [get_employee_by_id] after [add_employee]: once [e] is added to
    a company, the lookup of the identifier of [e] returns [e] when no
    employee listed before had that identifier, and keeps returning the
    earlier employee when one had, since [add_employee] does not compare
    identifiers. *)
Theorem lookup_after_add_employee (σ : state) (c e : loc) (es : list loc)
    (i : Z) :
  staff_at σ c = Some es → Forall (entity σ) es → id_at σ e = Some i →
  ∃ σ' r, Company_add_employee c e σ = Ok () σ' ∧
    Company_get_employee_by_id c i σ = Ok r σ ∧
    Company_get_employee_by_id c i σ'
    = Ok (match r with Some x => Some x | None => Some e end) σ'.
Proof.
  intros Hes Hent Hid.
  assert (∃ be, fields_at σ e = Some be) as [be Hbe].
  { unfold id_at in Hid. destruct (fields_at σ e); [eauto|done]. }
  destruct (add_employee_exact ACompany σ c e es be Hes Hbe)
    as (o & ll & Ho & Hown & Hll & Hadd).
  simpl in Hadd. rewrite Hadd.
  apply (list_at_keeper ACompany) in Hes as (o' & ll' & Ho' & Hown' & Hll'
                                              & Hne & (n & ->)).
  assert (o = Company n ll') as -> by congruence.
  assert (ll = ll') as -> by (simpl in Hown; congruence).
  eexists _, (first_with_id σ i es). split; [done|]. split.
  - unfold Company_get_employee_by_id. destruct σ as [h out]. simpl in *.
    rewrite run_bind, (get_employees_run _ _ c _ ll' Ho eq_refl).
    rewrite run_bind, (get_items_run _ _ ll' es Hll).
    by apply scan_by_id_run.
  - unfold Company_get_employee_by_id.
    rewrite run_bind, (get_employees_run _ _ c (Company n ll') ll')
      by (by rewrite ?lookup_insert_ne).
    rewrite run_bind, (get_items_run _ _ ll' (es ++ [e]))
      by apply lookup_insert_eq.
    rewrite scan_by_id_run.
    + f_equal. rewrite first_with_id_app.
      rewrite !(first_with_id_ext σ)
        by (intros l; by apply (id_at_list_update σ ll' l es)).
      destruct (first_with_id σ i es); [done|]. simpl.
      rewrite decide_True; [done|].
      by rewrite (id_at_list_update σ ll' e es).
    + apply Forall_app. split.
      * eapply Forall_impl; [|exact Hent]. intros x [b Hb]. exists b.
        by rewrite (fields_at_list_update σ ll' x es).
      * constructor; [|constructor]. exists be.
        by rewrite (fields_at_list_update σ ll' e es).
Qed.

(** ** Raises of a manager, further *)

(** X12.  [give_raise(amount)] on a manager, with [include_reports] left
    out or [False], is the raise of the base class: it returns normally and
    changes no object but the manager, so that no report gets a raise. *)
Theorem Manager_give_raise_alone (σ : state) (m : loc) (b : fields)
    (d : string) (ll : loc) (amount : float) :
  heap σ !! m = Some (Manager b d ll) →
  ∃ σ', Manager_give_raise m amount false σ = Ok () σ' ∧
    give_raise m amount σ = Ok () σ' ∧
    Employee_give_raise m amount σ = Ok () σ' ∧
    (∀ l, l ≠ m → heap σ' !! l = heap σ !! l).
Proof.
  intros Hm.
  destruct (Employee_give_raise_run σ m _ b amount Hm eq_refl) as [ln Hrun].
  eexists. split_and!.
  - unfold Manager_give_raise, Manager_give_raise_with.
    by rewrite run_bind, Hrun.
  - rewrite (give_raise_Manager σ m b d ll amount Hm).
    unfold Manager_give_raise, Manager_give_raise_with.
    by rewrite run_bind, Hrun.
  - exact Hrun.
  - intros l Hne. simpl. by rewrite lookup_insert_ne.
Qed.

(** X13.  A raise that includes the reports reaches the manager and the
    items of its list, and no other object: an employee that is neither is
    left as it is, even when it reports to a manager that is itself among
    the reports. *)
Theorem Manager_give_raise_does_not_cascade (σ : state) (m : loc)
    (xs : list loc) (amount : float) :
  reports_at σ m = Some xs → Forall (entity σ) xs →
  ∃ σ', Manager_give_raise m amount true σ = Ok () σ' ∧
    (∀ l, l ≠ m → l ∉ xs → heap σ' !! l = heap σ !! l).
Proof.
  intros Hxs Hent.
  destruct (Manager_give_raise_run σ m xs amount Hxs Hent) as [lns ->].
  eexists. split; [done|]. intros l Hne Hout. simpl.
  rewrite lookup_foldl_alter, lookup_alter_ne by done.
  apply occurrences_zero in Hout. rewrite Hout. simpl.
  by destruct (heap σ !! l).
Qed.

Lemma paid_invalid (amount : float) (o : obj) :
  gt amount 0 = false → paid amount o = o.
Proof. intros Hgt. unfold paid. rewrite Hgt. by destruct (base o). Qed.

Lemma base_iter_raised_invalid (amount : float) (n : nat) (o : obj) :
  gt amount 0 = false → base (Nat.iter n (raised amount) o) = base o.
Proof.
  intros Hgt. induction n as [|n IH]; simpl; [done|].
  by rewrite base_raised, paid_invalid.
Qed.

(** X14.  With an amount for which [amount > 0] does not hold, a raise
    that includes the reports returns normally and changes no salary, no
    name and no identifier; yet every sales person among the reports has
    had the literal [0.01] added to its commission rate, in floating point,
    once for each of its occurrences in the list. *)
Theorem Manager_give_raise_invalid_amount (σ : state) (m : loc)
    (xs : list loc) (amount : float) :
  reports_at σ m = Some xs → Forall (entity σ) xs → gt amount 0 = false →
  ∃ σ', Manager_give_raise m amount true σ = Ok () σ' ∧
    (∀ l, fields_at σ' l = fields_at σ l) ∧
    (∀ l r, commission_rate_at σ l = Some r →
       commission_rate_at σ' l = Some (added (occurrences l xs) 0.01 r)) ∧
    (∀ l r, commission_rate_at σ l = Some r → occurrences l xs = 1 →
       commission_rate_at σ' l = Some (r + 0.01)%float).
Proof.
  intros Hxs Hent Hle.
  destruct (Manager_give_raise_run σ m xs amount Hxs Hent) as [lns ->].
  eexists. split; [done|].
  match goal with
  | |- ?A ∧ ?B ∧ ?C =>
      assert A as Hfields; [|assert B as Hrate; [|split_and!; try done]]
  end.
  - intros l. unfold fields_at. simpl.
    rewrite lookup_foldl_alter, lookup_alter.
    destruct (decide (m = l)) as [->|].
    + destruct (heap σ !! l) as [o|]; simpl; [|done].
      by rewrite base_iter_raised_invalid, paid_invalid.
    + destruct (heap σ !! l) as [o|]; simpl; [|done].
      by rewrite base_iter_raised_invalid.
  - intros l r Hr. unfold commission_rate_at in *. simpl.
    destruct (heap σ !! l) as [[| | b r' s | |]|] eqn:Ho; try done.
    injection Hr as ->.
    rewrite lookup_foldl_alter, lookup_alter.
    destruct (decide (m = l)) as [->|]; rewrite Ho; simpl.
    + rewrite (paid_invalid amount _ Hle).
      by destruct (iter_raised_SalesPerson amount (occurrences l xs) b r s)
        as [b' ->].
    + by destruct (iter_raised_SalesPerson amount (occurrences l xs) b r s)
        as [b' ->].
  - intros l r Hr Hone. by rewrite (Hrate l r Hr), Hone.
Qed.

(** ** The commission *)

(** X15.  [calculate_commission()] returns the floating-point product of
    the commission rate and the sales, and changes nothing; after a raise
    of the sales person, for any amount, it returns the product of the
    sales and of the rate to which the literal [0.01] has been added. *)
Theorem commission_after_raise (σ : state) (l : loc) (b : fields)
    (r s amount : float) :
  heap σ !! l = Some (SalesPerson b r s) →
  calculate_commission l σ = Ok (r * s)%float σ ∧
  ∃ σ', SalesPerson_give_raise l amount σ = Ok () σ' ∧
        calculate_commission l σ' = Ok ((r + 0.01) * s)%float σ'.
Proof.
  intros Hl. split.
  - unfold calculate_commission. by exec.
  - destruct (SalesPerson_give_raise_run σ l b r s amount Hl) as [lns ->].
    eexists. split; [done|].
    unfold calculate_commission, raised, paid. simpl.
    destruct (gt amount 0); by exec.
Qed.

(** ** What the methods never do *)

Lemma disciplined_ret {A} (a : A) : disciplined (mret a : M A).
Proof. intros σ. apply rtc_refl. Qed.

Lemma disciplined_raise {A} (e : exn) : disciplined (raise e : M A).
Proof. intros σ. apply rtc_refl. Qed.

Lemma disciplined_bind {A B} (m : M A) (f : A → M B) :
  disciplined m → (∀ a, disciplined (f a)) → disciplined (m ≫= f).
Proof.
  intros Hm Hf σ. rewrite final_state_bind. specialize (Hm σ).
  destruct (m σ) as [a σ'|e σ']; simpl in Hm; [|done].
  etrans; [exact Hm|]. apply Hf.
Qed.

Lemma disciplined_stable {A} (m : M A) : heap_stable m → disciplined m.
Proof. intros Hm σ. apply rtc_once, method_output, Hm. Qed.

Lemma disciplined_for_each (xs : list loc) (body : loc → M unit) :
  (∀ x, disciplined (body x)) → disciplined (for_each xs body).
Proof.
  intros Hbody. induction xs as [|x xs IH]; simpl.
  - apply disciplined_ret.
  - apply disciplined_bind; [apply Hbody|]. intros _. apply IH.
Qed.

Lemma disciplined_alloc (o : obj) : disciplined (alloc o).
Proof.
  intros σ. destruct (new_instance_run o σ) as (l & -> & Hl).
  apply rtc_once. by apply (method_new σ _ l o).
Qed.

Lemma disciplined_Employee_give_raise (self : loc) (amount : float) :
  disciplined (Employee_give_raise self amount).
Proof.
  intros σ. unfold Employee_give_raise.
  destruct (gt amount 0) eqn:Hgt; cycle 1.
  { apply disciplined_stable. apply heap_stable_bind.
    - apply heap_stable_get_name.
    - intros n. apply heap_stable_print. }
  destruct (heap σ !! self) as [o|] eqn:Ho; cycle 1.
  { exec. apply rtc_refl. }
  destruct (base o) as [b|] eqn:Hb; cycle 1.
  { exec. apply rtc_refl. }
  destruct (Employee_give_raise_run σ self o b amount Ho Hb) as [ln Hrun].
  unfold Employee_give_raise in Hrun.
  rewrite Hgt in Hrun. rewrite Hrun.
  apply rtc_once. apply (method_raise σ _ self o b amount Ho Hb Hgt).
  simpl. unfold paid. by rewrite Hb, Hgt.
Qed.

(** The second half of [SalesPerson.give_raise]. *)
Lemma disciplined_raise_rate (self : loc) :
  disciplined (r ← get_commission_rate self;
               set_commission_rate self (r + 0.01)%float;;
               r' ← get_commission_rate self;
               print [Lit "Commission rate increased to: "; Fix2 r']).
Proof.
  intros σ.
  destruct (heap σ !! self) as [o|] eqn:Ho; cycle 1.
  { exec. apply rtc_refl. }
  destruct o as [| |b r s| |]; try (exec; apply rtc_refl).
  exec. apply rtc_once. by apply (method_rate σ _ self b r s).
Qed.

Lemma disciplined_add_employee (k : keeper) (self e : loc) :
  disciplined (add_employee k self e).
Proof.
  intros σ. apply rtc_once.
  destruct (add_employee_effect k self e σ)
    as [Hsame|(o & ll & xs & Ho & Hown & Hll & He & Hheap)].
  - by apply method_output.
  - by apply (method_items σ _ ll xs (xs ++ [e])).
Qed.

Lemma disciplined_remove_employee (k : keeper) (self e : loc) :
  disciplined (remove_employee k self e).
Proof.
  intros σ. apply rtc_once.
  destruct (remove_employee_effect k self e σ)
    as [Hsame|(o & ll & xs & Ho & Hown & Hll & Hheap)].
  - by apply method_output.
  - by apply (method_items σ _ ll xs (remove_first e xs)).
Qed.

Lemma disciplined_Manager_add_employee (self e : loc) :
  disciplined (Manager_add_employee self e).
Proof. apply (disciplined_add_employee AManager). Qed.

Lemma disciplined_Company_add_employee (self e : loc) :
  disciplined (Company_add_employee self e).
Proof. apply (disciplined_add_employee ACompany). Qed.

Lemma disciplined_Manager_remove_employee (self e : loc) :
  disciplined (Manager_remove_employee self e).
Proof. apply (disciplined_remove_employee AManager). Qed.

Lemma disciplined_Company_remove_employee (self e : loc) :
  disciplined (Company_remove_employee self e).
Proof. apply (disciplined_remove_employee ACompany). Qed.

Lemma disciplined_SalesPerson_give_raise (self : loc) (amount : float) :
  disciplined (SalesPerson_give_raise self amount).
Proof.
  unfold SalesPerson_give_raise. apply disciplined_bind.
  - apply disciplined_Employee_give_raise.
  - intros _. apply disciplined_raise_rate.
Qed.

Create HintDb disciplined.

#[local] Hint Resolve disciplined_ret disciplined_raise disciplined_alloc
  disciplined_Employee_give_raise disciplined_SalesPerson_give_raise
  disciplined_Manager_add_employee disciplined_Company_add_employee
  disciplined_Manager_remove_employee disciplined_Company_remove_employee
  : disciplined.

Ltac disciplined_step :=
  first
    [ solve [auto with disciplined nocore]
    | solve [apply disciplined_stable; auto with stable nocore]
    | apply disciplined_bind; [|intros ?]
    | apply disciplined_for_each; intros ?
    | match goal with
      | |- disciplined (match ?x with _ => _ end) => destruct x
      end ].

Ltac prove_disciplined := repeat disciplined_step.

Lemma disciplined_give_raise (self : loc) (amount : float) :
  disciplined (give_raise self amount).
Proof. unfold give_raise. prove_disciplined. Qed.

#[local] Hint Resolve disciplined_give_raise : disciplined.

Lemma disciplined_Manager_give_raise (self : loc) (amount : float)
    (include_reports : bool) :
  disciplined (Manager_give_raise self amount include_reports).
Proof.
  unfold Manager_give_raise, Manager_give_raise_with. prove_disciplined.
Qed.

#[local] Hint Resolve disciplined_Manager_give_raise : disciplined.

Lemma disciplined_perform (c : call) :
  method_call c → disciplined (perform c).
Proof.
  destruct c; simpl; try done; intros _; unfold void, new_Employee,
    new_Manager, new_SalesPerson, new_Company; prove_disciplined.
Qed.

Lemma all_added_app (xs ys : list float) (x : float) :
  all_added (xs ++ ys) x = all_added ys (all_added xs x).
Proof. unfold all_added. by rewrite foldl_app. Qed.

Lemma added_add (n k : nat) (a x : float) :
  added (n + k) a x = added n a (added k a x).
Proof. unfold added. apply Nat.iter_add. Qed.

Lemma kept_refl (b : fields) : kept b b.
Proof. split_and!; try done. by exists []. Qed.

Lemma kept_trans (b1 b2 b3 : fields) : kept b1 b2 → kept b2 b3 → kept b1 b3.
Proof.
  intros (? & ? & xs & Hxs & Hs2) (? & ? & ys & Hys & Hs3).
  split_and!; try congruence.
  exists (xs ++ ys). split; [by apply Forall_app|].
  by rewrite all_added_app, <- Hs2.
Qed.

Lemma rate_trans (r1 r2 r3 : float) :
  (∃ n, r2 = added n 0.01 r1) → (∃ n, r3 = added n 0.01 r2) →
  ∃ n, r3 = added n 0.01 r1.
Proof. intros [n ->] [k ->]. exists (k + n). by rewrite added_add. Qed.

Lemma grown_refl (o : obj) : grown o o.
Proof.
  destruct o; simpl; split_and?; try done; try apply kept_refl.
  by exists 0.
Qed.

Lemma grown_trans (o1 o2 o3 : obj) : grown o1 o2 → grown o2 o3 → grown o1 o3.
Proof.
  destruct o1, o2; try done; destruct o3; try done; simpl.
  - apply kept_trans.
  - intros (? & -> & ->) (? & -> & ->). split_and!; try done.
    by eapply kept_trans.
  - intros (? & ? & ->) (? & ? & ->). split_and!; try done.
    + by eapply kept_trans.
    + by eapply rate_trans.
  - by intros (-> & ->) (-> & ->).
Qed.

Lemma method_step_grown (σ σ' : state) (l : loc) (o : obj) :
  method_step σ σ' → heap σ !! l = Some o →
  ∃ o', heap σ' !! l = Some o' ∧ grown o o'.
Proof.
  intros [Hh | l0 o0 b a Hl0 Hb Ha Hh | l0 b r s Hl0 Hh | ll xs xs' Hll Hh
         | l0 o0 Hl0 Hh] Hl; rewrite Hh.
  - exists o. split; [done|apply grown_refl].
  - destruct (decide (l0 = l)) as [->|];
      [|rewrite lookup_insert_ne by done; exists o; split;
         [done|apply grown_refl]].
    rewrite lookup_insert_eq. eexists. split; [done|].
    assert (o0 = o) as -> by congruence.
    assert (kept b (Fields (employee_id b) (name b) (salary b + a)%float)).
    { split_and!; try done. exists [a]. split; [|done].
      by apply Forall_singleton. }
    destruct o; simplify_eq/=; split_and?; try done. by exists 0.
  - destruct (decide (l0 = l)) as [->|];
      [|rewrite lookup_insert_ne by done; exists o; split;
         [done|apply grown_refl]].
    rewrite lookup_insert_eq. eexists. split; [done|].
    assert (o = SalesPerson b r s) as -> by congruence. simpl.
    split_and!; [apply kept_refl| |done]. by exists 1.
  - destruct (decide (ll = l)) as [->|];
      [|rewrite lookup_insert_ne by done; exists o; split;
         [done|apply grown_refl]].
    rewrite lookup_insert_eq. eexists. split; [done|].
    by assert (o = PyList xs) as -> by congruence.
  - rewrite lookup_insert_ne by congruence.
    exists o. split; [done|apply grown_refl].
Qed.

Lemma method_steps_grown (σ σ' : state) (l : loc) (o : obj) :
  rtc method_step σ σ' → heap σ !! l = Some o →
  ∃ o', heap σ' !! l = Some o' ∧ grown o o'.
Proof.
  intros Hsteps. revert o. induction Hsteps as [σ|σ1 σ2 σ3 Hstep _ IH].
  - intros o Hl. exists o. split; [done|apply grown_refl].
  - intros o Hl.
    destruct (method_step_grown σ1 σ2 l o Hstep Hl) as (o2 & Hl2 & Hg2).
    destruct (IH o2 Hl2) as (o3 & Hl3 & Hg3).
    exists o3. split; [done|]. by eapply grown_trans.
Qed.

Lemma method_calls_steps (cs : list call) (σ : state) :
  Forall method_call cs → rtc method_step σ (after cs σ).
Proof.
  intros Hcs. revert σ. induction Hcs as [|c cs Hc _ IH]; intros σ; simpl.
  - apply rtc_refl.
  - etrans; [apply (disciplined_perform c Hc)|]. apply IH.
Qed.

(** X16.  No constructor call and no method call, on any receiver and with
    any arguments, whether it returns or raises, changes an identifier, a
    name, a department, a sales figure, the class of an object or the list
    that the attribute [employees] refers to.  After any sequence of such
    calls an object is what it was but for its salary, which is the old
    salary after the floating-point additions of some amounts, each greater
    than 0; for its commission rate, which is the old rate after some
    floating-point additions of the literal [0.01]; and, for a list, for
    its items. *)
Theorem methods_only_add (cs : list call) (σ : state) (l : loc) (o : obj) :
  Forall method_call cs → heap σ !! l = Some o →
  ∃ o', heap (after cs σ) !! l = Some o' ∧ grown o o'.
Proof.
  intros Hcs. apply method_steps_grown. by apply method_calls_steps.
Qed.

(** X17.  The constructor of [SalesPerson] sets the sales to 0 and no
    method changes them: after any sequence of constructor calls and
    method calls, the raises included, the sales of a sales person are
    still 0 and [calculate_commission()] returns the floating-point product
    of its commission rate, which is the rate it was constructed with after
    some additions of 0.01, and of 0.  That product is a zero whenever the
    rate is finite; it is NaN for an infinite rate and for NaN. *)
Theorem commission_without_sales (σ0 σ : state) (i : Z) (n : string)
    (s r : float) (l : loc) (cs : list call) :
  new_SalesPerson i n s r σ0 = Ok l σ → Forall method_call cs →
  ∃ b' k,
    heap (after cs σ) !! l = Some (SalesPerson b' (added k 0.01 r) 0) ∧
    calculate_commission l (after cs σ)
    = Ok (added k 0.01 r * 0)%float (after cs σ) ∧
    (is_Some (exact (added k 0.01 r)) →
     exact (added k 0.01 r * 0)%float = Some 0%Q).
Proof.
  intros Hnew Hcs. unfold new_SalesPerson in Hnew.
  destruct (new_instance_run (SalesPerson (Fields i n s) r 0%float) σ0)
    as (l' & Hrun & _).
  rewrite Hrun in Hnew. injection Hnew as <- <-.
  set (σ := State (<[l' := SalesPerson (Fields i n s) r 0%float]> (heap σ0))
                  (stdout σ0)).
  assert (heap σ !! l' = Some (SalesPerson (Fields i n s) r 0%float)) as Hl
    by apply lookup_insert_eq.
  destruct (method_steps_grown σ (after cs σ) l' _
              (method_calls_steps cs σ Hcs) Hl)
    as (o' & Ho' & Hg).
  destruct o' as [| |b' r' s'| |]; try done.
  destruct Hg as (_ & [k ->] & ->).
  exists b', k. split_and!.
  - done.
  - unfold calculate_commission. by exec.
  - apply exact_mul_zero.
Qed.

(** ** The states a program reaches *)

(** X18.  In every state that a program reaches from its start, by any
    sequence of constructor calls, method calls and assignments to the
    attributes [name], [salary], [department], [commission_rate] and
    [sales_achieved], the attribute [employees] of every manager and of
    every company refers to a list of its own, shared with no other
    object, and every item of such a list is an instance of [Employee]:
    [add_employee] lets nothing else in. *)
Theorem reachable_states_are_well_formed (cs : list call) :
  wf (after cs initial) ∧
  (∀ k self xs, list_at k (after cs initial) self = Some xs →
     Forall (entity (after cs initial)) xs) ∧
  (∀ l b d ll, heap (after cs initial) !! l = Some (Manager b d ll) →
     is_Some (reports_at (after cs initial) l)) ∧
  (∀ l n ll, heap (after cs initial) !! l = Some (Company n ll) →
     is_Some (staff_at (after cs initial) l)).
Proof.
  assert (wf (after cs initial)) as Hwf by apply wf_after, wf_initial.
  split_and!.
  - done.
  - intros k self xs. by apply wf_list_entities.
  - intros l b d ll Hl. unfold reports_at. rewrite Hl.
    by apply (wf_owned _ Hwf l (Manager b d ll) ll).
  - intros l n ll Hl. unfold staff_at. rewrite Hl.
    by apply (wf_owned _ Hwf l (Company n ll) ll).
Qed.

(** ** Calls that return *)

Lemma get_employee_by_id_run (σ : state) (c : loc) (i : Z) (es : list loc) :
  staff_at σ c = Some es → Forall (entity σ) es →
  Company_get_employee_by_id c i σ = Ok (first_with_id σ i es) σ.
Proof.
  intros (o & ll & Ho & Hown & Hll & _)%(list_at_keeper ACompany) Hent.
  unfold Company_get_employee_by_id. destruct σ as [h out]. simpl in *.
  rewrite run_bind, (get_employees_run _ _ c o ll Ho Hown).
  rewrite run_bind, (get_items_run _ _ ll es Hll).
  by apply scan_by_id_run.
Qed.

Lemma remove_employee_absent_run (k : keeper) (σ : state) (self e : loc)
    (xs : list loc) :
  list_at k σ self = Some xs → named σ e → e ∉ xs →
  remove_employee k self e σ
  = Ok () (State (heap σ)
             (stdout σ ++ [not_found k (name_at σ e) (name_at σ self)])).
Proof.
  intros (o & ll & Ho & Hown & Hll & Hne & Hk)%list_at_keeper
         (oe & He & Hnl)%named_alt Hout%contains_false.
  unfold name_at. rewrite Ho, He.
  destruct k; simpl;
    [destruct Hk as (b & d & ->)|destruct Hk as (n & ->)];
    unfold Manager_remove_employee, Company_remove_employee;
    destruct oe; try done; exec; rewrite Hout; by exec.
Qed.

Lemma keeper_list (σ : state) (l : loc) :
  wf σ → is_Manager σ l ∨ is_Company σ l →
  ∃ k xs, list_at k σ l = Some xs ∧
          match k with
          | AManager => is_Manager σ l
          | ACompany => is_Company σ l
          end.
Proof.
  intros Hwf [(b & d & ll & Hl)|(n & ll & Hl)].
  - destruct (wf_owned σ Hwf l _ ll Hl eq_refl) as [xs Hxs].
    exists AManager, xs. split; [|by exists b, d, ll].
    simpl. unfold reports_at. by rewrite Hl.
  - destruct (wf_owned σ Hwf l _ ll Hl eq_refl) as [xs Hxs].
    exists ACompany, xs. split; [|by exists n, ll].
    simpl. unfold staff_at. by rewrite Hl.
Qed.

Lemma perform_add_employee (k : keeper) (σ : state) (o e : loc)
    (xs : list loc) :
  list_at k σ o = Some xs →
  perform (AddEmployee o e) σ = add_employee k o e σ.
Proof.
  intros (oo & ll & Ho & _ & _ & _ & Hk)%list_at_keeper.
  simpl. rewrite run_bind. unfold deref. rewrite Ho.
  by destruct k; [destruct Hk as (? & ? & ->)|destruct Hk as (? & ->)].
Qed.

Lemma perform_remove_employee (k : keeper) (σ : state) (o e : loc)
    (xs : list loc) :
  list_at k σ o = Some xs →
  perform (RemoveEmployee o e) σ = remove_employee k o e σ.
Proof.
  intros (oo & ll & Ho & _ & _ & _ & Hk)%list_at_keeper.
  simpl. rewrite run_bind. unfold deref. rewrite Ho.
  by destruct k; [destruct Hk as (? & ? & ->)|destruct Hk as (? & ->)].
Qed.

Lemma void_run {A} (m : M A) (a : A) (σ σ' : state) :
  m σ = Ok a σ' → void m σ = Ok () σ'.
Proof. intros Hm. unfold void. by rewrite run_bind, Hm. Qed.

(** X19.  In a well-formed state no call raises when its receiver is an
    instance of a class that defines the method and its arguments are live
    objects, the argument of [remove_employee] being one with a name: a
    wrong class in [add_employee], an absent employee in [remove_employee],
    an amount that is not positive in [give_raise] and an unknown
    identifier in [get_employee_by_id] are reported by a message or by
    [None], never by an exception. *)
Theorem applicable_calls_return (σ : state) (c : call) :
  wf σ → applicable σ c → ∃ σ', perform c σ = Ok () σ'.
Proof.
  intros Hwf Happ. destruct c; simpl in Happ.
  - eexists. reflexivity.
  - eexists. reflexivity.
  - eexists. reflexivity.
  - eexists. reflexivity.
  - destruct Happ as [b Hb]. eexists. simpl. apply (void_run _ (employee_id b)).
    apply get_employee_id_run. unfold id_at. by rewrite Hb.
  - eexists. simpl. by apply display_details_run.
  - apply entity_alt in Happ as (ob & Ho & Hi). cbn [perform].
    destruct (give_raise_run σ o ob amount Ho Hi) as [lns ->]. eauto.
  - destruct Happ as (b & d & ll & Ho). simpl.
    rewrite run_bind. unfold deref. rewrite Ho.
    destruct include_reports.
    + destruct (wf_owned σ Hwf o _ ll Ho eq_refl) as [xs Hxs].
      assert (reports_at σ o = Some xs) as Hreports
        by (unfold reports_at; by rewrite Ho).
      destruct (Manager_give_raise_run σ o xs amount Hreports) as [lns ->];
        [|eauto].
      by apply (wf_list_entities AManager σ o).
    + destruct (Employee_give_raise_run σ o _ b amount Ho eq_refl)
        as [ln Hrun].
      unfold Manager_give_raise, Manager_give_raise_with.
      rewrite run_bind, Hrun. eauto.
  - destruct Happ as [Hkeeper [oe He]].
    destruct (keeper_list σ o Hwf Hkeeper) as (k & xs & Hxs & _).
    rewrite (perform_add_employee k σ o employee xs Hxs).
    destruct (isinstance_Employee oe) eqn:Hi.
    + destruct (add_employee_run k σ o employee xs Hxs)
        as (? & ? & ? & _ & _ & _ & ->); [|eauto].
      apply entity_alt. eauto.
    + rewrite (add_employee_invalid_run k σ o employee xs oe Hxs He Hi).
      eauto.
  - destruct Happ as [Hkeeper Hnamed].
    destruct (keeper_list σ o Hwf Hkeeper) as (k & xs & Hxs & _).
    rewrite (perform_remove_employee k σ o employee xs Hxs).
    destruct Hnamed as [[be Hbe]|Hcompany].
    + destruct (remove_employee_run k σ o employee xs be Hxs Hbe)
        as (? & ? & ? & _ & _ & _ & ->).
      destruct (contains employee xs); eauto.
    + rewrite (remove_employee_absent_run k σ o employee xs Hxs);
        [eauto|by right|].
      intros Hin. destruct Hcompany as (n & ll & Hc).
      pose proof (wf_list_entities k σ o xs Hwf Hxs) as Hent.
      apply (proj1 (list.Forall_forall _ _) Hent) in Hin
        as (oe & Hoe & Hi)%entity_alt.
      rewrite Hc in Hoe. by injection Hoe as <-.
  - destruct Happ as (b & r & s & Ho). eexists. simpl.
    apply (void_run _ (r * s)%float). unfold calculate_commission. by exec.
  - destruct Happ as (n & ll & Ho).
    destruct (wf_owned σ Hwf o _ ll Ho eq_refl) as [es Hes].
    assert (staff_at σ o = Some es) as Hstaff
      by (unfold staff_at; by rewrite Ho).
    simpl. rewrite run_bind. unfold deref. rewrite Ho.
    rewrite (display_all_employees_run σ o n ll es Hwf Ho Hstaff). eauto.
  - destruct Happ as (n & ll & Ho).
    destruct (wf_owned σ Hwf o _ ll Ho eq_refl) as [es Hes].
    assert (staff_at σ o = Some es) as Hstaff
      by (unfold staff_at; by rewrite Ho).
    simpl. rewrite run_bind. unfold deref. rewrite Ho.
    eexists. apply (void_run _ (first_with_id σ i es)).
    apply get_employee_by_id_run; [done|].
    by apply (wf_list_entities ACompany σ o).
  - destruct Happ as (n & ll & Ho).
    destruct (wf_owned σ Hwf o _ ll Ho eq_refl) as [es Hes].
    assert (staff_at σ o = Some es) as Hstaff
      by (unfold staff_at; by rewrite Ho).
    simpl. rewrite run_bind. unfold deref. rewrite Ho.
    destruct (entities_salaries σ es
                (wf_list_entities ACompany σ o es Hwf Hstaff)) as [ss Hss].
    eexists. apply (void_run _ (total ss)).
    by apply (total_salary_run σ o es).
  - apply named_alt in Happ as (oo & Ho & Hnl). simpl. unfold set_name.
    exec. destruct oo; try done; eauto.
  - apply named_alt in Happ as (oo & Ho & Hnl). simpl. unfold assign_salary.
    exec. destruct oo; try done; exec; eauto.
  - apply named_alt in Happ as (oo & Ho & Hnl). simpl. unfold set_department.
    exec. destruct oo; try done; eauto.
  - apply named_alt in Happ as (oo & Ho & Hnl). simpl.
    unfold assign_commission_rate.
    exec. destruct oo; try done; exec; eauto.
  - apply named_alt in Happ as (oo & Ho & Hnl). simpl.
    unfold set_sales_achieved.
    exec. destruct oo; try done; eauto.
Qed.

(** * The example of the source, and instances of the theorems *)

Example office_lists :
  reports_at office manager1 = Some [employee1; salesperson1] ∧
  staff_at office my_company
  = Some [employee1; employee2; manager1; salesperson1].
Proof. split; reflexivity. Qed.

Example office_output :
  stdout office =
  [ [Lit "Alice Smith"; Lit " added to "; Lit "Acme Corp"; Lit "."];
    [Lit "Bob Johnson"; Lit " added to "; Lit "Acme Corp"; Lit "."];
    [Lit "Charlie Brown"; Lit " added to "; Lit "Acme Corp"; Lit "."];
    [Lit "David Miller"; Lit " added to "; Lit "Acme Corp"; Lit "."];
    [Lit "Alice Smith"; Lit " added to "; Lit "Charlie Brown";
     Lit "'s direct reports."];
    [Lit "David Miller"; Lit " added to "; Lit "Charlie Brown";
     Lit "'s direct reports."] ].
Proof. reflexivity. Qed.

Example office_get_employee_by_id :
  Company_get_employee_by_id my_company 102 office = Ok (Some employee2) office
  ∧ Company_get_employee_by_id my_company 999 office = Ok None office.
Proof. split; vm_compute; reflexivity. Qed.

Example office_total_salary :
  Company_calculate_total_salary my_company office
  = Ok 230000%float office.
Proof. vm_compute. reflexivity. Qed.

(** With sales of 1000 David earns a commission of 100, and the total of
    the salaries is what it was. *)
Example total_salary_without_commission :
  let σ := final_state (perform (SetSalesAchieved salesperson1 1000)
                                office) in
  calculate_commission salesperson1 σ = Ok 100%float σ ∧
  Company_calculate_total_salary my_company σ = Ok 230000%float σ.
Proof. split; vm_compute; reflexivity. Qed.

(** The first scenario of the specification: a raise of 5000 for Alice; no
    commission for David before any sale, and a raise of 2000. *)
Example raises_of_the_scenario :
  salary_at (final_state (give_raise employee1 5000 office)) employee1
  = Some 55000%float ∧
  calculate_commission salesperson1 office = Ok 0%float office ∧
  salary_at (final_state (give_raise salesperson1 2000 office))
    salesperson1 = Some 42000%float ∧
  commission_rate_at (final_state (give_raise salesperson1 2000 office))
    salesperson1 = Some 0.11%float.
Proof. split_and!; vm_compute; reflexivity. Qed.

(** Floating-point sums that are not the sums of the numbers: 1 is lost
    when it is added to 1e16; 0.2 + 0.01 is not 0.21; the sum depends on the
    order of the additions; and the product of an infinite rate and of no
    sales is NaN. *)
Example floating_point_sums :
  (1e16 + 1 = 1e16)%float ∧
  (0.2 + 0.01)%float ≠ 0.21%float ∧
  (0.1 + 0.01 = 0.11)%float ∧
  total [0.1; 0.2; 0.3]%float ≠ total [0.3; 0.2; 0.1]%float ∧
  (infinity * 0 = nan)%float ∧
  gt nan 0 = false.
Proof.
  split_and!; try (vm_compute; reflexivity);
    vm_compute; intros H; discriminate H.
Qed.

(** ** The claims that fail as they are stated *)

(** C1 as stated fails.  An employee with a salary of 1e16 gets a raise of
    1, which is greater than 0: the salary afterwards is 1e16 still, and not
    the salary before plus 1. *)
Lemma give_raise_salary_not_exact :
  let σ := after [MakeEmployee 1 "A" 1e16] initial in
  fields_at σ 1%positive = Some (Fields 1 "A" 1e16) ∧
  gt 1 0 = true ∧
  ∃ σ', give_raise 1%positive 1 σ = Ok () σ' ∧
    Employee_give_raise 1%positive 1 σ = Ok () σ' ∧
    salary_at σ' 1%positive = Some 1e16%float ∧
    ¬ same_number (exact 1e16) (exact_plus (exact 1e16) (exact 1)).
Proof.
  split; [vm_compute; reflexivity|]. split; [reflexivity|].
  eexists. split; [vm_compute; reflexivity|].
  split; [vm_compute; reflexivity|].
  split; [vm_compute; reflexivity|].
  vm_compute. intros H. discriminate H.
Qed.

(** C3 as stated fails.  A sales person with a commission rate of 0.2 gets
    a raise: the rate afterwards is the float 0.2 + 0.01, which is not the
    float 0.21, and whose value is neither the value of 0.2 plus that of the
    float 0.01 nor the value of 0.2 plus 1/100. *)
Lemma SalesPerson_give_raise_commission_not_exact :
  let σ := after [MakeSalesPerson 1 "S" 40000 0.2] initial in
  commission_rate_at σ 1%positive = Some 0.2%float ∧
  ∃ σ' r', SalesPerson_give_raise 1%positive 2000 σ = Ok () σ' ∧
    commission_rate_at σ' 1%positive = Some r' ∧
    r' ≠ 0.21%float ∧
    ¬ same_number (exact r') (exact_plus (exact 0.2) (exact 0.01)) ∧
    ¬ same_number (exact r') (exact_plus (exact 0.2) (Some (1 # 100)%Q)).
Proof.
  split; [vm_compute; reflexivity|].
  exists (final_state
            (SalesPerson_give_raise 1%positive 2000
               (after [MakeSalesPerson 1 "S" 40000 0.2] initial))),
         (0.2 + 0.01)%float.
  split; [vm_compute; reflexivity|]. split; [vm_compute; reflexivity|].
  split_and!; vm_compute; intros H; discriminate H.
Qed.

(** C5 as stated fails.  For a company of three employees with the salaries
    0.1, 0.2 and 0.3, the total that [calculate_total_salary()] returns is
    not the sum of the three salaries; and it is not the total of the same
    employees listed in the opposite order. *)
Lemma calculate_total_salary_sum_not_exact :
  let σ := after [MakeEmployee 1 "A" 0.1; MakeEmployee 2 "B" 0.2;
                  MakeEmployee 3 "C" 0.3; MakeCompany "X";
                  AddEmployee 5%positive 1%positive;
                  AddEmployee 5%positive 2%positive;
                  AddEmployee 5%positive 3%positive] initial in
  staff_at σ 5%positive = Some [1%positive; 2%positive; 3%positive] ∧
  Forall2 (λ e s, salary_at σ e = Some s)
    [1%positive; 2%positive; 3%positive] [0.1; 0.2; 0.3]%float ∧
  ∃ t, Company_calculate_total_salary 5%positive σ = Ok t σ ∧
    ¬ same_number (exact t) (exact_total [0.1; 0.2; 0.3]%float) ∧
    t ≠ total [0.3; 0.2; 0.1]%float.
Proof.
  split; [vm_compute; reflexivity|]. split.
  { repeat (apply List.Forall2_cons; [vm_compute; reflexivity|]).
    apply List.Forall2_nil. }
  exists (total [0.1; 0.2; 0.3]%float).
  split; [vm_compute; reflexivity|].
  split; vm_compute; intros H; discriminate H.
Qed.

(** C7 as stated fails, in two ways.  A manager that is among its own
    reports gets the raise twice: from 80000, a raise of 10000 that
    includes the reports takes its salary to 100000.  And a raise of 1 for
    a manager with a salary of 1e16 and no report leaves the salary at
    1e16. *)
Lemma Manager_give_raise_include_reports_not_once :
  (let σ := final_state (Manager_add_employee manager1 manager1 office) in
   reports_at σ manager1 = Some [employee1; salesperson1; manager1] ∧
   salary_at σ manager1 = Some 80000%float ∧
   gt 10000 0 = true ∧
   ∃ σ' s', Manager_give_raise manager1 10000 true σ = Ok () σ' ∧
     salary_at σ' manager1 = Some s' ∧
     s' = 100000%float ∧ s' ≠ (80000 + 10000)%float ∧
     ¬ same_number (exact s') (exact_plus (exact 80000) (exact 10000))) ∧
  (let σ := after [MakeManager 1 "M" 1e16 "D"] initial in
   reports_at σ 2%positive = Some [] ∧
   salary_at σ 2%positive = Some 1e16%float ∧
   gt 1 0 = true ∧
   ∃ σ', Manager_give_raise 2%positive 1 true σ = Ok () σ' ∧
     salary_at σ' 2%positive = Some 1e16%float ∧
     ¬ same_number (exact 1e16) (exact_plus (exact 1e16) (exact 1))).
Proof.
  split.
  - split; [vm_compute; reflexivity|]. split; [vm_compute; reflexivity|].
    split; [reflexivity|].
    exists (final_state
              (Manager_give_raise manager1 10000 true
                 (final_state
                    (Manager_add_employee manager1 manager1 office)))),
           100000%float.
    split; [vm_compute; reflexivity|]. split; [vm_compute; reflexivity|].
    split; [reflexivity|].
    split; vm_compute; intros H; discriminate H.
  - split; [vm_compute; reflexivity|]. split; [vm_compute; reflexivity|].
    split; [reflexivity|].
    eexists. split; [vm_compute; reflexivity|].
    split; [vm_compute; reflexivity|].
    vm_compute. intros H. discriminate H.
Qed.

(** C10 as stated fails.  In a company whose employees have the salaries
    1e16 and 1, the second one is added once more: the total afterwards is
    the total before, 1e16, and not that total plus 1. *)
Lemma Company_add_employee_again_not_exact :
  let σ := after [MakeEmployee 1 "A" 1e16; MakeEmployee 2 "B" 1;
                  MakeCompany "X";
                  AddEmployee 4%positive 1%positive;
                  AddEmployee 4%positive 2%positive] initial in
  staff_at σ 4%positive = Some [1%positive; 2%positive] ∧
  salary_at σ 2%positive = Some 1%float ∧
  ∃ σ' t t', Company_add_employee 4%positive 2%positive σ = Ok () σ' ∧
    staff_at σ' 4%positive = Some [1%positive; 2%positive; 2%positive] ∧
    Company_calculate_total_salary 4%positive σ = Ok t σ ∧
    Company_calculate_total_salary 4%positive σ' = Ok t' σ' ∧
    t' = t ∧
    ¬ same_number (exact t') (exact_plus (exact t) (exact 1)).
Proof.
  split; [vm_compute; reflexivity|]. split; [vm_compute; reflexivity|].
  exists (final_state
            (Company_add_employee 4%positive 2%positive
               (after [MakeEmployee 1 "A" 1e16; MakeEmployee 2 "B" 1;
                       MakeCompany "X";
                       AddEmployee 4%positive 1%positive;
                       AddEmployee 4%positive 2%positive] initial))),
         1e16%float, 1e16%float.
  split; [vm_compute; reflexivity|]. split; [vm_compute; reflexivity|].
  split; [vm_compute; reflexivity|]. split; [vm_compute; reflexivity|].
  split; [reflexivity|].
  vm_compute. intros H. discriminate H.
Qed.

(** ** Instances of the theorems *)

Lemma office_entities :
  Forall (entity office) [employee1; employee2; manager1; salesperson1].
Proof.
  repeat (apply List.Forall_cons; [eexists; vm_compute; reflexivity|]).
  apply List.Forall_nil.
Defined.

Lemma give_raise_salary_witness :
  fields_at office salesperson1
  = Some (Fields 301 "David Miller" 40000) ∧
  ∃ σ', give_raise salesperson1 2000 office = Ok () σ' ∧
    (gt 2000 0 = true →
     salary_at σ' salesperson1 = Some (40000 + 2000)%float) ∧
    (gt 2000 0 = false → salary_at σ' salesperson1 = Some 40000%float) ∧
    ((2000 <=? 0)%float = true →
     salary_at σ' salesperson1 = Some 40000%float).
Proof.
  split; [vm_compute; reflexivity|].
  apply (give_raise_salary office salesperson1
           (Fields 301 "David Miller" 40000) 2000 give_raise).
  - vm_compute. reflexivity.
  - right. reflexivity.
Defined.

Lemma employee_id_never_changes_witness :
  let σ := after [MakeEmployee 101 "Alice Smith" 50000] initial in
  constructed 101 employee1 σ ∧
  get_employee_id employee1 (after (tail example_setup) σ)
  = Ok 101%Z (after (tail example_setup) σ).
Proof.
  intros σ.
  assert (constructed 101 employee1 σ) as Hnew.
  { exists initial, "Alice Smith"%string, 50000%float. left.
    vm_compute. reflexivity. }
  split; [exact Hnew|].
  exact (employee_id_never_changes 101 employee1 σ (tail example_setup) Hnew).
Defined.

Lemma SalesPerson_give_raise_commission_witness :
  ∃ σ' b',
    SalesPerson_give_raise salesperson1 (-500) office = Ok () σ' ∧
    heap σ' = <[salesperson1 :=
                  SalesPerson b' (0.1 + 0.01)%float 0%float]>
                (heap office) ∧
    commission_rate_at σ' salesperson1
    = Some (0.1 + 0.01)%float ∧
    employee_id b' = 301%Z ∧ name b' = "David Miller"%string ∧
    (gt (-500) 0 = true → salary b' = (40000 + (-500))%float) ∧
    (gt (-500) 0 = false → salary b' = 40000%float).
Proof.
  apply (SalesPerson_give_raise_commission office salesperson1
           (Fields 301 "David Miller" 40000) 0.1 0%float
           (-500)).
  vm_compute. reflexivity.
Defined.

Lemma Manager_add_then_remove_witness :
  ∃ σ1 σ2,
    Manager_add_employee manager1 employee2 office = Ok () σ1 ∧
    reports_at σ1 manager1 = Some ([employee1; salesperson1] ++ [employee2]) ∧
    Manager_remove_employee manager1 employee2 σ1 = Ok () σ2 ∧
    reports_at σ2 manager1 = Some [employee1; salesperson1] ∧
    heap σ2 = heap office.
Proof.
  apply (Manager_add_then_remove office manager1 employee2
           [employee1; salesperson1]).
  - reflexivity.
  - eexists. vm_compute. reflexivity.
  - reflexivity.
Defined.

Lemma calculate_total_salary_sum_witness :
  Company_calculate_total_salary my_company office
  = Ok (total [50000; 60000; 80000; 40000]%float) office ∧
  total [] = 0%float ∧
  ∀ ss' s, total (ss' ++ [s]) = (total ss' + s)%float.
Proof.
  apply (calculate_total_salary_sum office my_company
           [employee1; employee2; manager1; salesperson1]).
  - reflexivity.
  - repeat (apply List.Forall2_cons; [vm_compute; reflexivity|]).
    apply List.Forall2_nil.
Defined.

Lemma get_employee_by_id_first_witness :
  ∃ r, Company_get_employee_by_id my_company 102 office = Ok r office ∧
    (∀ e, r = Some e ↔
          ∃ pre post,
            [employee1; employee2; manager1; salesperson1]
            = pre ++ e :: post ∧
            id_at office e = Some 102%Z ∧
            ∀ x, x ∈ pre → id_at office x ≠ Some 102%Z) ∧
    (r = None ↔
     ∀ x, x ∈ [employee1; employee2; manager1; salesperson1] →
          id_at office x ≠ Some 102%Z) ∧
    (∀ e, e ∈ [employee1; employee2; manager1; salesperson1] →
          (∀ x, x ∈ [employee1; employee2; manager1; salesperson1] →
                id_at office x = Some 102%Z ↔ x = e) →
          r = Some e).
Proof.
  apply (get_employee_by_id_first office my_company 102
           [employee1; employee2; manager1; salesperson1]).
  - reflexivity.
  - exact office_entities.
Defined.

Lemma Manager_give_raise_include_reports_witness :
  ∃ σ',
    Manager_give_raise manager1 10000 true office = Ok () σ' ∧
    salary_at σ' manager1 = Some (80000 + 10000)%float ∧
    salary_at σ' employee1 = Some (50000 + 10000)%float ∧
    salary_at σ' salesperson1 = Some (40000 + 10000)%float ∧
    commission_rate_at σ' salesperson1
    = Some (0.1 + 0.01)%float.
Proof.
  destruct (proj1 Manager_give_raise_include_reports office manager1
              [employee1; salesperson1] 10000%float)
    as (σ' & Hrun & _ & _ & _ & Hsalary & Hrate & _).
  - reflexivity.
  - repeat (apply List.Forall_cons; [eexists; vm_compute; reflexivity|]).
    apply List.Forall_nil.
  - reflexivity.
  - exists σ'. split; [exact Hrun|]. split_and!.
    + apply Hsalary; vm_compute; reflexivity.
    + apply Hsalary; vm_compute; reflexivity.
    + apply Hsalary; vm_compute; reflexivity.
    + apply Hrate; vm_compute; reflexivity.
Defined.

Lemma remove_employee_outcome_witness :
  ∃ σ', remove_employee AManager manager1 employee2 office = Ok () σ' ∧
    (∃ ln, stdout σ' = stdout office ++ [ln]) ∧
    (employee2 ∉ [employee1; salesperson1] →
       heap σ' = heap office ∧
       ∃ n, stdout σ'
            = stdout office ++ [not_found AManager "Bob Johnson" n]) ∧
    (∀ pre post, [employee1; salesperson1] = pre ++ employee2 :: post →
       employee2 ∉ pre →
       list_at AManager σ' manager1 = Some (pre ++ post)).
Proof.
  apply (remove_employee_outcome AManager office manager1 employee2
           [employee1; salesperson1]
           (Fields 102 "Bob Johnson" 60000)).
  - reflexivity.
  - vm_compute. reflexivity.
Defined.

Lemma reports_and_staff_independent_witness :
  staff_at (final_state (Manager_add_employee manager1 employee2 office))
    my_company
  = Some [employee1; employee2; manager1; salesperson1] ∧
  staff_at (final_state (Manager_remove_employee manager1 employee2 office))
    my_company
  = Some [employee1; employee2; manager1; salesperson1] ∧
  reports_at (final_state (Company_add_employee my_company employee2 office))
    manager1
  = Some [employee1; salesperson1] ∧
  reports_at
    (final_state (Company_remove_employee my_company employee2 office))
    manager1
  = Some [employee1; salesperson1].
Proof.
  apply (reports_and_staff_independent example_setup manager1 my_company
           employee2 [employee1; salesperson1]
           [employee1; employee2; manager1; salesperson1]).
  - reflexivity.
  - reflexivity.
Defined.

Lemma Company_add_employee_again_witness :
  ∃ σ' t,
    Company_add_employee my_company employee1 office = Ok () σ' ∧
    staff_at σ' my_company
    = Some ([employee1; employee2; manager1; salesperson1] ++ [employee1]) ∧
    occurrences employee1
      ([employee1; employee2; manager1; salesperson1] ++ [employee1])
    = S (occurrences employee1
           [employee1; employee2; manager1; salesperson1]) ∧
    2 ≤ occurrences employee1
          ([employee1; employee2; manager1; salesperson1] ++ [employee1]) ∧
    Company_calculate_total_salary my_company office = Ok t office ∧
    Company_calculate_total_salary my_company σ'
    = Ok (t + 50000)%float σ'.
Proof.
  apply (Company_add_employee_again office my_company employee1
           [employee1; employee2; manager1; salesperson1] 50000).
  - reflexivity.
  - exact office_entities.
  - apply list_elem_of_In. vm_compute. tauto.
  - vm_compute. reflexivity.
Defined.

(** * The example in full, and instances of the further properties *)

(** The example of the source runs to its end: Alice ends with 65000, Bob
    with 60000, Charlie with 90000, David with 52000 and a commission rate
    of 0.12; 38 lines are printed, the total of the salaries being
    230000. *)
Example main_runs :
  ∃ σ, main initial = Ok () σ ∧
    salary_at σ employee1 = Some 65000%float ∧
    salary_at σ employee2 = Some 60000%float ∧
    salary_at σ manager1 = Some 90000%float ∧
    salary_at σ salesperson1 = Some 52000%float ∧
    commission_rate_at σ salesperson1 = Some 0.12%float ∧
    length (stdout σ) = 38 ∧
    stdout σ !! 19
    = Some [Lit line_feed; Lit "Total salary of all employees: $";
            Fix2 230000].
Proof.
  eexists. split; [vm_compute; reflexivity|].
  split_and!; vm_compute; reflexivity.
Qed.

Lemma office_wf : wf office.
Proof. apply wf_after, wf_initial. Defined.

Lemma display_details_output_witness :
  fields_at office manager1 = Some (Fields 201 "Charlie Brown" 80000) ∧
  display_details manager1 office
  = Ok () (State (heap office) (stdout office ++ details office manager1)) ∧
  (∃ rest, details office manager1
           = base_line (Fields 201 "Charlie Brown" 80000) :: rest) ∧
  (∀ xs, reports_at office manager1 = Some xs →
     length (details office manager1)
     = match xs with [] => 3 | _ => 3 + length xs end).
Proof.
  assert (fields_at office manager1
          = Some (Fields 201 "Charlie Brown" 80000)) as Hb
    by (vm_compute; reflexivity).
  split; [exact Hb|].
  exact (display_details_output office manager1 _ office_wf Hb).
Defined.

Lemma display_all_employees_output_witness :
  Company_display_all_employees my_company office
  = Ok () (State (heap office)
             (stdout office
              ++ all_details office "Acme Corp"
                   [employee1; employee2; manager1; salesperson1])).
Proof.
  apply (display_all_employees_output office my_company "Acme Corp"
           6%positive [employee1; employee2; manager1; salesperson1]
           office_wf).
  - vm_compute. reflexivity.
  - vm_compute. reflexivity.
Defined.

Lemma add_employee_rejects_witness :
  add_employee AManager manager1 my_company office
  = Ok () (State (heap office)
             (stdout office ++ [invalid_line AManager (name_at office manager1)])).
Proof.
  apply (add_employee_rejects AManager office manager1 my_company
           [employee1; salesperson1] (Company "Acme Corp" 6%positive)).
  - vm_compute. reflexivity.
  - vm_compute. reflexivity.
  - reflexivity.
Defined.


Lemma add_employee_appends_witness :
  ∃ σ' o ll, add_employee AManager manager1 manager1 office = Ok () σ' ∧
    list_at AManager σ' manager1
    = Some ([employee1; salesperson1] ++ [manager1]) ∧
    occurrences manager1 ([employee1; salesperson1] ++ [manager1])
    = S (occurrences manager1 [employee1; salesperson1]) ∧
    stdout σ'
    = stdout office
      ++ [added_line AManager
            (name (Fields 201 "Charlie Brown" 80000))
            (name_at office manager1)] ∧
    heap office !! manager1 = Some o ∧ owned_list o = Some ll ∧
    heap office !! ll = Some (PyList [employee1; salesperson1]) ∧
    heap σ'
    = <[ll := PyList ([employee1; salesperson1] ++ [manager1])]>
        (heap office) ∧
    (∀ l, l ≠ ll → heap σ' !! l = heap office !! l) ∧
    (∀ l o', heap office !! l = Some o' → (∀ ys, o' ≠ PyList ys) →
       heap σ' !! l = Some o') ∧
    (∀ l, fields_at σ' l = fields_at office l) ∧
    (∀ l, commission_rate_at σ' l = commission_rate_at office l).
Proof.
  apply (add_employee_appends AManager office manager1 manager1
           [employee1; salesperson1]
           (Fields 201 "Charlie Brown" 80000)).
  - vm_compute. reflexivity.
  - vm_compute. reflexivity.
Defined.

Lemma remove_employee_once_witness :
  ∃ σ' xs', remove_employee ACompany my_company employee2 office = Ok () σ' ∧
    list_at ACompany σ' my_company = Some xs' ∧
    occurrences employee2 xs'
    = pred (occurrences employee2
              [employee1; employee2; manager1; salesperson1]) ∧
    (∀ x, x ≠ employee2 →
       occurrences x xs'
       = occurrences x [employee1; employee2; manager1; salesperson1]) ∧
    length xs' = pred (length [employee1; employee2; manager1; salesperson1]) ∧
    (2 ≤ occurrences employee2 [employee1; employee2; manager1; salesperson1]
     → employee2 ∈ xs') ∧
    stdout σ'
    = stdout office
      ++ [removed_line ACompany
            (name (Fields 102 "Bob Johnson" 60000))
            (name_at office my_company)].
Proof.
  apply (remove_employee_once ACompany office my_company employee2
           [employee1; employee2; manager1; salesperson1]
           (Fields 102 "Bob Johnson" 60000)).
  - vm_compute. reflexivity.
  - vm_compute. reflexivity.
  - apply list_elem_of_In. vm_compute. tauto.
Defined.

Lemma total_salary_after_add_and_remove_witness :
  ∃ t σ', Company_calculate_total_salary my_company office = Ok t office ∧
    Company_add_employee my_company employee1 office = Ok () σ' ∧
    staff_at σ' my_company
    = Some ([employee1; employee2; manager1; salesperson1] ++ [employee1]) ∧
    Company_calculate_total_salary my_company σ'
    = Ok (t + 50000)%float σ' ∧
    (employee1 ∉ [employee1; employee2; manager1; salesperson1] →
     ∃ σ'', Company_remove_employee my_company employee1 σ' = Ok () σ'' ∧
            staff_at σ'' my_company
            = Some [employee1; employee2; manager1; salesperson1] ∧
            Company_calculate_total_salary my_company σ'' = Ok t σ'').
Proof.
  apply (total_salary_after_add_and_remove office my_company employee1
           [employee1; employee2; manager1; salesperson1] 50000).
  - vm_compute. reflexivity.
  - exact office_entities.
  - vm_compute. reflexivity.
Defined.

Lemma lookup_after_add_employee_witness :
  ∃ σ' r, Company_add_employee my_company employee1 office = Ok () σ' ∧
    Company_get_employee_by_id my_company 101 office = Ok r office ∧
    Company_get_employee_by_id my_company 101 σ'
    = Ok (match r with Some x => Some x | None => Some employee1 end) σ'.
Proof.
  apply (lookup_after_add_employee office my_company employee1
           [employee1; employee2; manager1; salesperson1] 101).
  - vm_compute. reflexivity.
  - exact office_entities.
  - vm_compute. reflexivity.
Defined.

Lemma Manager_give_raise_alone_witness :
  ∃ σ', Manager_give_raise manager1 10000 false office = Ok () σ' ∧
    give_raise manager1 10000 office = Ok () σ' ∧
    Employee_give_raise manager1 10000 office = Ok () σ' ∧
    (∀ l, l ≠ manager1 → heap σ' !! l = heap office !! l).
Proof.
  apply (Manager_give_raise_alone office manager1
           (Fields 201 "Charlie Brown" 80000) "Sales" 3%positive
           10000).
  vm_compute. reflexivity.
Defined.

Lemma office_reports_entities :
  Forall (entity office) [employee1; salesperson1].
Proof.
  repeat (apply List.Forall_cons; [eexists; vm_compute; reflexivity|]).
  apply List.Forall_nil.
Defined.

Lemma Manager_give_raise_does_not_cascade_witness :
  ∃ σ', Manager_give_raise manager1 10000 true office = Ok () σ' ∧
    (∀ l, l ≠ manager1 → l ∉ [employee1; salesperson1] →
          heap σ' !! l = heap office !! l).
Proof.
  apply (Manager_give_raise_does_not_cascade office manager1
           [employee1; salesperson1] 10000).
  - vm_compute. reflexivity.
  - exact office_reports_entities.
Defined.

Lemma Manager_give_raise_invalid_amount_witness :
  ∃ σ', Manager_give_raise manager1 (-5) true office = Ok () σ' ∧
    (∀ l, fields_at σ' l = fields_at office l) ∧
    (∀ l r, commission_rate_at office l = Some r →
       commission_rate_at σ' l
       = Some (added (occurrences l [employee1; salesperson1]) 0.01 r)) ∧
    (∀ l r, commission_rate_at office l = Some r →
       occurrences l [employee1; salesperson1] = 1 →
       commission_rate_at σ' l = Some (r + 0.01)%float).
Proof.
  apply (Manager_give_raise_invalid_amount office manager1
           [employee1; salesperson1] (-5)).
  - vm_compute. reflexivity.
  - exact office_reports_entities.
  - reflexivity.
Defined.

Lemma commission_after_raise_witness :
  calculate_commission salesperson1 office
  = Ok (0.1 * 0)%float office ∧
  ∃ σ', SalesPerson_give_raise salesperson1 2000 office = Ok () σ' ∧
        calculate_commission salesperson1 σ'
        = Ok ((0.1 + 0.01) * 0)%float σ'.
Proof.
  apply (commission_after_raise office salesperson1
           (Fields 301 "David Miller" 40000) 0.1 0%float
           2000).
  vm_compute. reflexivity.
Defined.

Lemma methods_only_add_witness :
  ∃ o', heap (after [GiveRaise employee1 5000;
                     GiveRaiseReports manager1 10000 true;
                     RemoveEmployee manager1 employee1] office)
          !! employee1 = Some o' ∧
        grown (Employee (Fields 101 "Alice Smith" 50000)) o'.
Proof.
  apply (methods_only_add
           [GiveRaise employee1 5000;
            GiveRaiseReports manager1 10000 true;
            RemoveEmployee manager1 employee1] office employee1).
  - repeat (apply List.Forall_cons; [exact I|]). apply List.Forall_nil.
  - vm_compute. reflexivity.
Defined.

Lemma commission_without_sales_witness :
  let σ := final_state
             (new_SalesPerson 301 "David Miller" 40000 0.1 initial) in
  ∃ b' k,
    heap (after [GiveRaise 1%positive 2000; GiveRaise 1%positive 1] σ)
      !! 1%positive
    = Some (SalesPerson b' (added k 0.01 0.1) 0) ∧
    calculate_commission 1%positive
      (after [GiveRaise 1%positive 2000; GiveRaise 1%positive 1] σ)
    = Ok (added k 0.01 0.1 * 0)%float
        (after [GiveRaise 1%positive 2000; GiveRaise 1%positive 1] σ) ∧
    (is_Some (exact (added k 0.01 0.1)) →
     exact (added k 0.01 0.1 * 0)%float = Some 0%Q).
Proof.
  intros σ.
  apply (commission_without_sales initial σ 301 "David Miller"
           40000 0.1 1%positive).
  - vm_compute. reflexivity.
  - repeat (apply List.Forall_cons; [exact I|]). apply List.Forall_nil.
Defined.

Lemma applicable_calls_return_witness :
  ∃ σ', perform (RemoveEmployee my_company manager1) office = Ok () σ'.
Proof.
  apply (applicable_calls_return office
           (RemoveEmployee my_company manager1) office_wf).
  split.
  - right. eexists _, _. vm_compute. reflexivity.
  - left. eexists. vm_compute. reflexivity.
Defined.
